(** * Stock-Market-Order-Simulator: the matching engine of [main.cpp]

    A shallow embedding of [src/main.cpp]: the parsing of an input line,
    the order book with its price rule, cross test and clearing sweep, the
    end-of-session report, the display of the book and the name of the
    output file.

    Modelling conventions.
    - [int] fields ([quantity], [timestamp]) are integers of [Z].  The one
      subtraction of the program, [quantity -= tradedQuantity], is taken
      modulo 2^32 into the range of [int] ([wrapInt]): the value the machine
      leaves when the subtraction overflows.  [++timestamp] would overflow
      only after 2^31 input lines and is left unwrapped.
    - [double] prices are values of [double]: NaN, the two infinities, and
      the finite values by their exact rational value (the two zeros, equal
      for every comparison, are one value).  The program never computes
      with a price; it copies and compares them, and the comparisons of
      [double] are those of IEEE 754, false on NaN except [!=].
    - [std::stod] and the text the stream writes for a [double] are library
      code and parameters of the model, as are the values the fields of
      [Order order;] hold while uninitialised ([Runtime]).  An exception of
      [std::stod] ends the program; the model then has no output ([None]).
    - the [istringstream] of [parseOrder] is modelled with its [eofbit] and
      [failbit]: an extraction on a stream that is not good fails and leaves
      its target alone.
    - [std::priority_queue<Order>] is a bag of orders, kept as a list, whose
      [top] is a greatest element for [Order::operator<].  The C++ standard
      fixes no more than that; when two orders of a queue are equivalent for
      [operator<] the choice between them is the library's, and the model
      takes the one pushed first; they have the same price and the same
      timestamp ([greatest_unique]), which orders of a run of [main] on one
      side of the book never have.  With a NaN price in a queue
      [operator<] is no strict weak ordering and the standard promises
      nothing; the model keeps taking the first candidate no other beats.
    - the output file is the list of the records written to it, the price
      of a record being the [double] handed to the stream; [writeLine] is
      the line of text of a record, in which the stream writes the price
      with two decimals.  What [displayOrders] writes to the console is the
      list of its rows, with the price of a cell kept as a number.
    - file names are lists of characters. *)

From Stdlib Require Import List ZArith QArith String Ascii Bool Lia Lqa.
From Stdlib Require Import DecimalString.
From Stdlib Require Import Permutation Sorted.
Import ListNotations.

Open Scope Z_scope.
Open Scope list_scope.

(** ** Numbers *)

(** [a < b] on rationals, decided. *)
Definition Qlt_bool (x y : Q) : bool :=
  (Qnum x * QDen y <? Qnum y * QDen x)%Z.

(** The values of a C++ [double]. *)
Inductive double :=
| NaN
| Inf (negative : bool)
| Fin (q : Q).

Definition isNaN (d : double) : bool :=
  match d with NaN => true | _ => false end.

(** [a < b] *)
Definition dlt (a b : double) : bool :=
  match a, b with
  | NaN, _ => false
  | _, NaN => false
  | Inf true, Inf true => false
  | Inf true, _ => true
  | _, Inf true => false
  | Inf false, _ => false
  | _, Inf false => true
  | Fin x, Fin y => Qlt_bool x y
  end.

(** [a == b] *)
Definition deq (a b : double) : bool :=
  match a, b with
  | NaN, _ => false
  | _, NaN => false
  | Inf s, Inf s' => Bool.eqb s s'
  | Fin x, Fin y => Qeq_bool x y
  | _, _ => false
  end.

(** [a <= b] *)
Definition dle (a b : double) : bool :=
  match a, b with
  | NaN, _ => false
  | _, NaN => false
  | Inf true, _ => true
  | _, Inf true => false
  | _, Inf false => true
  | Inf false, _ => false
  | Fin x, Fin y => Qle_bool x y
  end.

(** [a != b], [a > b], [a >= b] *)
Definition dne (a b : double) : bool := negb (deq a b).
Definition dgt (a b : double) : bool := dlt b a.
Definition dge (a b : double) : bool := dle b a.

Definition INT_MAX : Z := 2147483647.
Definition INT_MIN : Z := -2147483648.

(** The [int] a result is stored as when it leaves the range of [int]. *)
Definition wrapInt (z : Z) : Z := (z + 2147483648) mod 4294967296 - 2147483648.

(** ** Orders *)

Record Order := mkOrder {
  id : string;
  type : ascii;            (* 'B' for buy, anything else is a sell *)
  quantity : Z;
  limitPrice : double;
  isMarketOrder : bool;
  timestamp : Z
}.

Definition isBuy (o : Order) : bool := Ascii.eqb (type o) "B"%char.

(** [Order::operator<]: the receiver's [type] picks the direction of the
    price comparison; equal prices fall through to the timestamps. *)
Definition order_lt (this other : Order) : bool :=
  if isBuy this then
    if dne (limitPrice this) (limitPrice other)
    then dlt (limitPrice this) (limitPrice other)
    else timestamp this >? timestamp other
  else
    if dne (limitPrice this) (limitPrice other)
    then dgt (limitPrice this) (limitPrice other)
    else timestamp this >? timestamp other.

(** ** The priority queue *)

Definition PriorityQueue := list Order.

Definition push (o : Order) (q : PriorityQueue) : PriorityQueue := q ++ [o].

(** The greatest element of the queue together with the queue without it;
    [None] on the empty queue. *)
Fixpoint extract (q : PriorityQueue) : option (Order * PriorityQueue) :=
  match q with
  | [] => None
  | x :: q' =>
      match extract q' with
      | None => Some (x, [])
      | Some (m, r) => if order_lt x m then Some (m, x :: r) else Some (x, q')
      end
  end.

Definition top (q : PriorityQueue) : option Order := option_map fst (extract q).

Definition pop (q : PriorityQueue) : PriorityQueue :=
  match extract q with
  | Some (_, r) => r
  | None => []
  end.

Definition empty (q : PriorityQueue) : bool :=
  match q with [] => true | _ => false end.

(** ** The output file *)

(** A record of the output file.  [price] is the value given to the stream,
    which writes it with [std::fixed << std::setprecision(2)]. *)
Inductive Line :=
| Purchased (oid : string) (shares : Z) (price : double)
| Sold (oid : string) (shares : Z) (price : double)
| Unexecuted (oid : string) (shares : Z).

(** ** The order book *)

Record OrderBook := mkOrderBook {
  buyOrders : PriorityQueue;
  sellOrders : PriorityQueue;
  lastTradedPrice : double
}.

Definition newOrderBook (initialPrice : double) : OrderBook :=
  mkOrderBook [] [] initialPrice.

Definition addOrder (order : Order) (st : OrderBook) : OrderBook :=
  if isBuy order
  then mkOrderBook (push order (buyOrders st)) (sellOrders st) (lastTradedPrice st)
  else mkOrderBook (buyOrders st) (push order (sellOrders st)) (lastTradedPrice st).

Definition canMatch (buy sell : Order) : bool :=
  isMarketOrder buy || isMarketOrder sell
  || dge (limitPrice buy) (limitPrice sell).

Definition determinePrice (st : OrderBook) (buy sell : Order) : double :=
  if negb (isMarketOrder buy) && negb (isMarketOrder sell) then
    if timestamp buy <? timestamp sell then limitPrice buy else limitPrice sell
  else if negb (isMarketOrder buy) then limitPrice buy
  else if negb (isMarketOrder sell) then limitPrice sell
  else lastTradedPrice st.

Definition setQuantity (o : Order) (n : Z) : Order :=
  mkOrder (id o) (type o) n (limitPrice o) (isMarketOrder o) (timestamp o).

(** One trade of the sweep: what the body of the [while] loop of
    [matchOrders] computes from the two tops. *)
Record Trade := mkTrade {
  tradeBuy : Order;
  tradeSell : Order;
  tradedQuantity : Z;
  executionPrice : double
}.

Definition tradeLines (t : Trade) : list Line :=
  [ Purchased (id (tradeBuy t)) (tradedQuantity t) (executionPrice t);
    Sold (id (tradeSell t)) (tradedQuantity t) (executionPrice t) ].

(** One iteration of the [while] loop of [matchOrders]: [None] when the loop
    exits (a queue is empty, or the [break]), otherwise the book after the
    iteration and the trade it executed. *)
Definition matchStep (st : OrderBook) : option (OrderBook * Trade) :=
  if empty (buyOrders st) || empty (sellOrders st) then None
  else
    match top (buyOrders st), top (sellOrders st) with
    | Some buy, Some sell =>
        if negb (canMatch buy sell) then None
        else
          let buys := pop (buyOrders st) in
          let sells := pop (sellOrders st) in
          let tradedQuantity := Z.min (quantity buy) (quantity sell) in
          let executionPrice := determinePrice st buy sell in
          let buys :=
            if quantity buy >? tradedQuantity
            then push (setQuantity buy (wrapInt (quantity buy - tradedQuantity))) buys
            else buys in
          let sells :=
            if quantity sell >? tradedQuantity
            then push (setQuantity sell (wrapInt (quantity sell - tradedQuantity))) sells
            else sells in
          Some (mkOrderBook buys sells executionPrice,
                mkTrade buy sell tradedQuantity executionPrice)
    | _, _ => None
    end.

(** The loop, unrolled [fuel] times. *)
Fixpoint matchLoop (fuel : nat) (st : OrderBook) (output : list Line)
  : OrderBook * list Line :=
  match fuel with
  | O => (st, output)
  | S fuel' =>
      match matchStep st with
      | None => (st, output)
      | Some (st', t) => matchLoop fuel' st' (output ++ tradeLines t)
      end
  end.

Definition bookSize (st : OrderBook) : nat :=
  (List.length (buyOrders st) + List.length (sellOrders st))%nat.

(** [OrderBook::matchOrders].  Every iteration takes at least one order out
    of the book ([matchStep_bookSize]), so [bookSize st] iterations are
    enough to reach the exit of the loop ([matchOrders_exits]). *)
Definition matchOrders (st : OrderBook) (output : list Line)
  : OrderBook * list Line :=
  matchLoop (bookSize st) st output.

(** The [while (!q.empty()) { v.push_back(q.top()); q.pop(); }] loops. *)
Fixpoint drainLoop (fuel : nat) (q : PriorityQueue) : list Order :=
  match fuel with
  | O => []
  | S fuel' =>
      if empty q then []
      else
        match top q with
        | Some m => m :: drainLoop fuel' (pop q)
        | None => []
        end
  end.

Definition drain (q : PriorityQueue) : list Order := drainLoop (List.length q) q.

(** [std::sort] with the comparison [a.timestamp < b.timestamp].  The order
    of records with equal timestamps is unspecified in C++; the model is an
    insertion sort. *)
Fixpoint insertByTimestamp (o : Order) (l : list Order) : list Order :=
  match l with
  | [] => [o]
  | x :: l' =>
      if timestamp o <? timestamp x then o :: l else x :: insertByTimestamp o l'
  end.

Definition sortByTimestamp (l : list Order) : list Order :=
  fold_right insertByTimestamp [] l.

Definition unexecutedLine (o : Order) : Line := Unexecuted (id o) (quantity o).

(** [OrderBook::writeUnexecutedOrders]: the method is given the book and the
    output file and hands both back. *)
Definition writeUnexecutedOrders (st : OrderBook) (output : list Line)
  : OrderBook * list Line :=
  let unexecutedOrders := [] in
  let remainingBuyOrders := buyOrders st in
  let unexecutedOrders := unexecutedOrders ++ drain remainingBuyOrders in
  let remainingSellOrders := sellOrders st in
  let unexecutedOrders := unexecutedOrders ++ drain remainingSellOrders in
  let unexecutedOrders := sortByTimestamp unexecutedOrders in
  (st, output ++ map unexecutedLine unexecutedOrders).

(** ** Reading the input *)

(** What the C++ library and the machine decide: the value or the exception
    of [std::stod] on a token, the text the stream writes for a [double]
    under [std::fixed << std::setprecision(2)], and the values the fields
    [type] and [quantity] of [Order order;] hold while nothing has been
    assigned to them, for the call of [parseOrder] of each timestamp. *)
Inductive StodResult :=
| StodValue (d : double)
| StodThrows.

Record Runtime := mkRuntime {
  stod : string -> StodResult;
  showFixed2 : double -> string;
  indeterminateType : Z -> ascii;
  indeterminateQuantity : Z -> Z
}.

(** The [std::istringstream] of [parseOrder]: the characters not yet read
    and the two state bits that matter. *)
Record istringstream := mkStream {
  buffer : list ascii;
  eofbit : bool;
  failbit : bool
}.

Definition good (s : istringstream) : bool := negb (eofbit s) && negb (failbit s).

(** [isspace] in the "C" locale. *)
Definition isSpace (c : ascii) : bool :=
  let n := nat_of_ascii c in
  (n =? 32)%nat || ((9 <=? n)%nat && (n <=? 13)%nat).

Definition isDigit (c : ascii) : bool :=
  let n := nat_of_ascii c in
  (48 <=? n)%nat && (n <=? 57)%nat.

Definition digitValue (c : ascii) : Z := Z.of_nat (nat_of_ascii c) - 48.

Fixpoint skipSpaces (s : list ascii) : list ascii :=
  match s with
  | c :: s' => if isSpace c then skipSpaces s' else s
  | [] => []
  end.

(** The longest prefix of characters that satisfy [p], and what follows. *)
Fixpoint span (p : ascii -> bool) (s : list ascii) : list ascii * list ascii :=
  match s with
  | c :: s' =>
      if p c then let (tok, rest) := span p s' in (c :: tok, rest) else ([], s)
  | [] => ([], [])
  end.

Definition decimalValue (digits : list ascii) : Z :=
  fold_left (fun acc c => 10 * acc + digitValue c) digits 0.

Definition atEnd (rest : list ascii) : bool :=
  match rest with [] => true | _ => false end.

(** The sentry of a formatted extraction: a stream that is not good fails;
    otherwise white space is skipped, and running out of characters sets
    [eofbit] and [failbit]. *)
Definition sentry (s : istringstream) : bool * istringstream :=
  if good s then
    match skipSpaces (buffer s) with
    | [] => (false, mkStream [] true true)
    | rest => (true, mkStream rest false false)
    end
  else (false, mkStream (buffer s) (eofbit s) true).

(** [iss >> str]: the characters up to the next white space; reading up to
    the end of the line sets [eofbit].  When the sentry fails the string
    keeps its value [old]. *)
Definition extractString (old : string) (s : istringstream)
  : string * istringstream :=
  let (ok, s1) := sentry s in
  if ok then
    let (tok, rest) := span (fun c => negb (isSpace c)) (buffer s1) in
    (string_of_list_ascii tok, mkStream rest (atEnd rest) false)
  else (old, s1).

(** [iss >> c]: the next character that is not white space. *)
Definition extractChar (old : ascii) (s : istringstream)
  : ascii * istringstream :=
  let (ok, s1) := sentry s in
  if ok then
    match buffer s1 with
    | c :: rest => (c, mkStream rest false false)
    | [] => (old, mkStream [] true true)
    end
  else (old, s1).

(** [iss >> n] for an [int]: an optional sign and decimal digits.  Without a
    digit the extraction fails and stores 0; a value out of the range of
    [int] fails and stores [INT_MAX] or [INT_MIN]. *)
Definition extractInt (old : Z) (s : istringstream) : Z * istringstream :=
  let (ok, s1) := sentry s in
  if ok then
    let (negative, afterSign) :=
      match buffer s1 with
      | c :: r =>
          if Ascii.eqb c "-" then (true, r)
          else if Ascii.eqb c "+" then (false, r)
          else (false, c :: r)
      | [] => (false, [])
      end in
    let (digits, rest) := span isDigit afterSign in
    match digits with
    | [] => (0, mkStream rest (atEnd rest) true)
    | _ =>
        let v := if negative then - decimalValue digits else decimalValue digits in
        if v >? INT_MAX then (INT_MAX, mkStream rest (atEnd rest) true)
        else if v <? INT_MIN then (INT_MIN, mkStream rest (atEnd rest) true)
        else (v, mkStream rest (atEnd rest) false)
    end
  else (old, s1).

(** [parseOrder]: [None] when [std::stod] throws. *)
Definition parseOrder (rt : Runtime) (line : string) (timestamp : Z)
  : option Order :=
  let iss := mkStream (list_ascii_of_string line) false false in
  let (id, iss) := extractString EmptyString iss in
  let (type, iss) := extractChar (indeterminateType rt timestamp) iss in
  let (quantity, iss) :=
    extractInt (wrapInt (indeterminateQuantity rt timestamp)) iss in
  let (limitPriceStr, iss) := extractString EmptyString iss in
  if negb (failbit iss) then
    match stod rt limitPriceStr with
    | StodValue limitPrice =>
        Some (mkOrder id type quantity limitPrice false timestamp)
    | StodThrows => None
    end
  else Some (mkOrder id type quantity (Fin 0) true timestamp).

(** The shape of a line: white space, tokens, numerals. *)

(** White space only. *)
Definition blank (w : list ascii) : Prop := forallb isSpace w = true.

(** A token: characters, at least one, none of them white space. *)
Definition word (tok : list ascii) : Prop :=
  tok <> [] /\ forallb (fun c => negb (isSpace c)) tok = true.


(** What may follow a token: the end of the line, or white space. *)
Definition tokenEnd (rest : list ascii) : Prop :=
  match rest with
  | [] => True
  | c :: _ => isSpace c = true
  end.

(** One turn of the loop of [main]: the order is added, then the book is
    swept. *)
Definition submit (order : Order) (st : OrderBook) (output : list Line)
  : OrderBook * list Line :=
  matchOrders (addOrder order st) output.

(** The [while (std::getline(inputFile, line))] loop of [main]; [None] when
    an exception of [std::stod] ends the program. *)
Fixpoint processLines (rt : Runtime) (lines : list string) (timestamp : Z)
  (st : OrderBook) (output : list Line) : option (OrderBook * list Line) :=
  match lines with
  | [] => Some (st, output)
  | line :: rest =>
      let timestamp := timestamp + 1 in
      match parseOrder rt line timestamp with
      | None => None
      | Some order =>
          let (st', output') := submit order st output in
          processLines rt rest timestamp st' output'
      end
  end.

(** [main], from the initial price read and the lines after it: the output
    file when the program runs to its end.  The calls of
    [displayPendingOrders] write to the console and leave the book alone;
    they are left out. *)
Definition main (rt : Runtime) (initialPrice : double) (lines : list string)
  : option (list Line) :=
  match processLines rt lines 0 (newOrderBook initialPrice) [] with
  | Some (st, output) => Some (snd (writeUnexecutedOrders st output))
  | None => None
  end.

(** ** The text of the output file *)

(** What [output << n] writes for an [int]: its decimal numeral. *)
Definition showInt (n : Z) : string := NilZero.string_of_int (Z.to_int n).

Definition newline : string := String "010"%char EmptyString.

(** The line of text a record stands for, as [matchOrders] and
    [writeUnexecutedOrders] write it. *)
Definition writeLine (rt : Runtime) (l : Line) : string :=
  match l with
  | Purchased oid shares price =>
      ("order " ++ oid ++ " " ++ showInt shares ++ " shares purchased at price "
       ++ showFixed2 rt price ++ newline)%string
  | Sold oid shares price =>
      ("order " ++ oid ++ " " ++ showInt shares ++ " shares sold at price "
       ++ showFixed2 rt price ++ newline)%string
  | Unexecuted oid shares =>
      ("order " ++ oid ++ " " ++ showInt shares ++ " shares unexecuted"
       ++ newline)%string
  end.

(** The contents of the output file: the lines of its records. *)
Definition outputFile (rt : Runtime) (output : list Line) : string :=
  String.concat EmptyString (map (writeLine rt) output).

(** ** The orders of a run *)

(** The orders [parseOrder] makes of the lines, in order; [None] when
    [std::stod] throws on one of them. *)
Fixpoint parseLines (rt : Runtime) (lines : list string) (timestamp : Z)
  : option (list Order) :=
  match lines with
  | [] => Some []
  | line :: rest =>
      match parseOrder rt line (timestamp + 1) with
      | None => None
      | Some order =>
          match parseLines rt rest (timestamp + 1) with
          | None => None
          | Some orders => Some (order :: orders)
          end
      end
  end.

(** [submit] for each order of a list. *)
Fixpoint submitAll (orders : list Order) (st : OrderBook) (output : list Line)
  : OrderBook * list Line :=
  match orders with
  | [] => (st, output)
  | order :: rest =>
      let (st', output') := submit order st output in
      submitAll rest st' output'
  end.

(** The book and the output when the orders have been submitted to a new
    book, before the report is written. *)
Definition finalBook (initialPrice : double) (orders : list Order) : OrderBook :=
  fst (submitAll orders (newOrderBook initialPrice) []).

Definition tradeOutput (initialPrice : double) (orders : list Order) : list Line :=
  snd (submitAll orders (newOrderBook initialPrice) []).

(** A stand-in for [std::stod] to run examples with: the value of a numeral
    made of digits with at most one dot, and NaN for [nan]; it throws on
    everything else.  It gives what [std::stod] gives on the tokens of the
    examples, whose values are integers. *)
Definition sampleStod (tok : string) : StodResult :=
  if String.eqb tok "nan" then StodValue NaN
  else
    let (whole, rest) := span isDigit (list_ascii_of_string tok) in
    match whole, rest with
    | _ :: _, [] => StodValue (Fin (inject_Z (decimalValue whole)))
    | _ :: _, "."%char :: frac =>
        let (digits, rest') := span isDigit frac in
        match rest' with
        | [] =>
            StodValue
              (Fin (Qred (inject_Z (decimalValue whole)
                          + inject_Z (decimalValue digits)
                            / inject_Z (10 ^ Z.of_nat (List.length digits)))))
        | _ => StodThrows
        end
    | _, _ => StodThrows
    end.

(** The integer nearest to [q], the even one of two that are as near. *)
Definition roundHalfEven (q : Q) : Z :=
  let n := Qnum q in
  let d := Z.pos (Qden q) in
  let f := n / d in
  let r := 2 * (n mod d) in
  if r <? d then f
  else if d <? r then f + 1
  else if Z.even f then f else f + 1.

(** A stand-in for the text of a [double] with two decimals: the decimal
    numeral nearest to the value. *)
Definition sampleShowFixed2 (d : double) : string :=
  match d with
  | NaN => "nan"
  | Inf false => "inf"
  | Inf true => "-inf"
  | Fin q =>
      let cents := Z.abs (roundHalfEven (q * inject_Z 100)) in
      ((if Qlt_bool q 0 then "-" else EmptyString)
       ++ showInt (cents / 100) ++ "."
       ++ showInt (cents mod 100 / 10) ++ showInt (cents mod 10))%string
  end.

Definition sampleRuntime : Runtime :=
  mkRuntime sampleStod sampleShowFixed2 (fun _ => "S"%char) (fun _ => 0).

(** ** Ranks, sides and runs of the sweep *)

(** [a] ranks at least as high as [b] on the bid side: a higher price, or
    the same price and not a later arrival. *)
Definition bidRanksFirst (a b : Order) : Prop :=
  dlt (limitPrice b) (limitPrice a) = true
  \/ (deq (limitPrice a) (limitPrice b) = true /\ timestamp a <= timestamp b).

(** The same on the ask side, where the lower price wins. *)
Definition askRanksFirst (a b : Order) : Prop :=
  dlt (limitPrice a) (limitPrice b) = true
  \/ (deq (limitPrice a) (limitPrice b) = true /\ timestamp a <= timestamp b).

(** The orders of a queue are all on the side the queue is for: [addOrder]
    sends type ['B'] to [buyOrders] and every other type to [sellOrders]. *)
Definition allBuys (q : PriorityQueue) : Prop := Forall (fun o => isBuy o = true) q.
Definition allSells (q : PriorityQueue) : Prop := Forall (fun o => isBuy o = false) q.

Definition wellSided (st : OrderBook) : Prop :=
  allBuys (buyOrders st) /\ allSells (sellOrders st).

(** No order of the queue has NaN for its price. *)
Definition allPriced (q : list Order) : Prop :=
  Forall (fun o => isNaN (limitPrice o) = false) q.

(** The [while] loop of [matchOrders] as a big-step relation: the book it
    starts from, the trades of its iterations in order, the book it exits
    with. *)
Inductive sweep : OrderBook -> list Trade -> OrderBook -> Prop :=
| sweep_exit st :
    matchStep st = None -> sweep st [] st
| sweep_iter st st' st'' t ts :
    matchStep st = Some (st', t) -> sweep st' ts st'' -> sweep st (t :: ts) st''.

(** ** Accounting of shares *)

(** The shares of the records of [l] whose key is [x], and how many such
    records there are. *)
Definition sumFor {A : Type} (key : A -> string) (weight : A -> Z)
  (x : string) (l : list A) : Z :=
  fold_right (fun a acc => (if String.eqb (key a) x then weight a else 0) + acc) 0 l.

Definition countFor {A : Type} (key : A -> string) (x : string) (l : list A) : nat :=
  List.length (filter (fun a => String.eqb (key a) x) l).

(** The orders resting in the book. *)
Definition resting (st : OrderBook) : list Order := buyOrders st ++ sellOrders st.

(** Shares resting in the book under the id [x]. *)
Definition restingFor (x : string) (st : OrderBook) : Z :=
  sumFor id quantity x (resting st).

(** Shares submitted under the id [x]. *)
Definition submittedFor (x : string) (orders : list Order) : Z :=
  sumFor id quantity x orders.

(** Shares a record of the output reports as traded by the order [x]. *)
Definition tradedShares (x : string) (l : Line) : Z :=
  match l with
  | Purchased oid n _ => if String.eqb oid x then n else 0
  | Sold oid n _ => if String.eqb oid x then n else 0
  | Unexecuted _ _ => 0
  end.

(** The sum of [tradedQuantity] over the trade records of the order [x]. *)
Definition tradedFor (x : string) (output : list Line) : Z :=
  fold_right (fun l acc => tradedShares x l + acc) 0 output.

(** The quantity of the order [x] in the unexecuted report: that of its
    record, 0 when it has none. *)
Fixpoint unexecutedFor (x : string) (output : list Line) : Z :=
  match output with
  | [] => 0
  | Unexecuted oid n :: rest =>
      if String.eqb oid x then n else unexecutedFor x rest
  | _ :: rest => unexecutedFor x rest
  end.

Definition isTradeLine (l : Line) : Prop :=
  match l with
  | Unexecuted _ _ => False
  | _ => True
  end.

(** Shares a record of the output reports as unexecuted for the order [x],
    and their sum over the output. *)
Definition unexecutedShares (x : string) (l : Line) : Z :=
  match l with
  | Unexecuted oid n => if String.eqb oid x then n else 0
  | _ => 0
  end.

Definition unexecutedTotal (x : string) (output : list Line) : Z :=
  fold_right (fun l acc => unexecutedShares x l + acc) 0 output.

(** The timestamps of the orders resting in the book. *)
Definition stamps (st : OrderBook) : list Z := map timestamp (resting st).

(** ** What the output looks like *)

(** Trade records come in pairs: the record of the buyer, then the record of
    the seller, with the same shares and the same price. *)
Inductive pairedTrades : list Line -> Prop :=
| pairedTrades_nil : pairedTrades []
| pairedTrades_pair buyer seller shares price rest :
    pairedTrades rest ->
    pairedTrades (Purchased buyer shares price :: Sold seller shares price :: rest).

(** The execution price of a trade respects the limits of its two orders:
    it is the limit itself, or on the right side of it. *)
Definition withinLimits (t : Trade) : Prop :=
  (isMarketOrder (tradeBuy t) = false ->
   executionPrice t = limitPrice (tradeBuy t) \/
   dle (executionPrice t) (limitPrice (tradeBuy t)) = true) /\
  (isMarketOrder (tradeSell t) = false ->
   executionPrice t = limitPrice (tradeSell t) \/
   dle (limitPrice (tradeSell t)) (executionPrice t) = true).

(** The shares a record of the output carries. *)
Definition lineShares (l : Line) : Z :=
  match l with
  | Purchased _ n _ => n
  | Sold _ n _ => n
  | Unexecuted _ n => n
  end.

(** The price a record of the output carries, when it carries one. *)
Definition linePrice (l : Line) : option double :=
  match l with
  | Purchased _ _ p => Some p
  | Sold _ _ p => Some p
  | Unexecuted _ _ => None
  end.

(** The prices the input gives: the initial price and the limit prices of
    the limit orders made of its lines. *)
Definition inputPrice (initialPrice : double) (orders : list Order) (p : double)
  : Prop :=
  p = initialPrice \/
  exists o, In o orders /\ isMarketOrder o = false /\ limitPrice o = p.

(** The order [o] is the order of number [timestamp o] of the run, but for
    its quantity. *)
Definition parsedFrom (orders : list Order) (o : Order) : Prop :=
  1 <= timestamp o /\
  exists parsed,
    nth_error orders (Z.to_nat (timestamp o - 1)) = Some parsed /\
    setQuantity parsed (quantity o) = o.

(** [s] is [l] with some of its elements left out. *)
Inductive subseq {A : Type} : list A -> list A -> Prop :=
| subseq_nil l : subseq [] l
| subseq_skip x s l : subseq s l -> subseq s (x :: l)
| subseq_take x s l : subseq s l -> subseq (x :: s) (x :: l).

(** ** The display of the book *)

(** What [displayOrders] prints for an order: its id, its price or the
    letter M for a market order ([None]), its quantity. *)
Record Cell := mkCell {
  cellId : string;
  cellPrice : option double;
  cellQuantity : Z
}.

Definition cellOf (order : Order) : Cell :=
  mkCell (id order)
         (if isMarketOrder order then None else Some (limitPrice order))
         (quantity order).

(** [std::sort] with [Order::operator<], as an insertion sort. *)
Fixpoint insertOrder (o : Order) (l : list Order) : list Order :=
  match l with
  | [] => [o]
  | x :: l' => if order_lt o x then o :: l else x :: insertOrder o l'
  end.

Definition sortOrders (l : list Order) : list Order :=
  fold_right insertOrder [] l.

(** [OrderBook::displayOrders]: the rows written to the console, a buy cell
    and a sell cell each, a cell being [None] where the column has run out. *)
Definition displayOrders (buys sells : PriorityQueue)
  : list (option Cell * option Cell) :=
  let buyCopy := buys in
  let buyVector := drain buyCopy in
  let sellCopy := sells in
  let sellVector := drain sellCopy in
  let buyVector := sortOrders buyVector in
  let sellVector := sortOrders sellVector in
  let maxRows := Nat.max (List.length buyVector) (List.length sellVector) in
  map (fun i => (option_map cellOf (nth_error buyVector i),
                 option_map cellOf (nth_error sellVector i)))
      (seq 0 maxRows).

(** [OrderBook::displayPendingOrders]: the last trading price of the header
    and the rows. *)
Definition displayPendingOrders (st : OrderBook)
  : double * list (option Cell * option Cell) :=
  (lastTradedPrice st, displayOrders (buyOrders st) (sellOrders st)).

(** ** The name of the output file *)

(** File names are [std::string]s, here lists of characters. *)
Definition chars (s : string) : list ascii := list_ascii_of_string s.

Fixpoint startsWith (pat s : list ascii) : bool :=
  match pat, s with
  | [], _ => true
  | _ :: _, [] => false
  | a :: pat', b :: s' => Ascii.eqb a b && startsWith pat' s'
  end.

(** [s.find(pat)]: the position of the first occurrence of [pat] in [s],
    [None] for [npos]. *)
Fixpoint find (pat s : list ascii) : option nat :=
  if startsWith pat s then Some O
  else
    match s with
    | [] => None
    | _ :: s' => option_map S (find pat s')
    end.

(** [s.find_last_of(c)]: the position of the last [c] in [s]. *)
Fixpoint find_last_of (c : ascii) (s : list ascii) : option nat :=
  match s with
  | [] => None
  | x :: s' =>
      match find_last_of c s' with
      | Some n => Some (S n)
      | None => if Ascii.eqb x c then Some O else None
      end
  end.

(** [s.replace(pos, len, str)], for [pos <= s.size()]. *)
Definition replace (pos len : nat) (str s : list ascii) : list ascii :=
  firstn pos s ++ str ++ skipn (pos + len) s.

(** [s.substr(0, n)]; with [npos] for [n] it is all of [s]. *)
Definition substr0 (n : option nat) (s : list ascii) : list ascii :=
  match n with
  | Some n => firstn n s
  | None => s
  end.

(** The name [main] gives the output file: the first ["input"] of the name of
    the input file becomes ["output"]; a name without ["input"] has what
    follows its last dot replaced by ["out"]. *)
Definition outputFilenameOf (inputFilename : list ascii) : list ascii :=
  match find (chars "input") inputFilename with
  | Some inputPos => replace inputPos 5 (chars "output") inputFilename
  | None =>
      substr0 (find_last_of "."%char inputFilename) inputFilename ++ chars ".out"
  end.

(** ** Sample books *)

(** The first example of the specification after its two orders are in:
    [O1 B 10 101.00] and [O2 S 5 99.00], last traded price [100.00]. *)
Definition exampleBook : OrderBook :=
  mkOrderBook [mkOrder "O1" "B" 10 (Fin (101#1)) false 1]
              [mkOrder "O2" "S" 5 (Fin (99#1)) false 2]
              (Fin (100#1)).

(** A book whose tops do not cross: bid [98.00], ask [99.00]. *)
Definition quietBook : OrderBook :=
  mkOrderBook [mkOrder "O1" "B" 10 (Fin (98#1)) false 1]
              [mkOrder "O2" "S" 5 (Fin (99#1)) false 2]
              (Fin (100#1)).

(** A book with three bids and two asks that do not cross. *)
Definition deepBook : OrderBook :=
  mkOrderBook [ mkOrder "O1" "B" 10 (Fin (97#1)) false 1;
                mkOrder "O3" "B" 4 (Fin (98#1)) false 3;
                mkOrder "O4" "B" 6 (Fin (98#1)) false 4 ]
              [ mkOrder "O2" "S" 5 (Fin (101#1)) false 2;
                mkOrder "O5" "S" 7 (Fin (99#1)) false 5 ]
              (Fin (100#1)).

(** A sell queue with a market order between two limit orders. *)
Definition marketSell : Order := mkOrder "O2" "S" 4 (Fin 0) true 2.

Definition mixedSells : PriorityQueue :=
  [ mkOrder "O1" "S" 5 (Fin (50#1)) false 1; marketSell;
    mkOrder "O3" "S" 6 (Fin (40#1)) false 3 ].

(** An order no exchange would take: no shares, at a negative price. *)
Definition voidOrder : Order := mkOrder "O9" "B" 0 (Fin (-1#1)) false 1.

(** The input of the first example of the specification and the orders
    [parseOrder] makes of it. *)
Definition exampleLines : list string :=
  [ "O1 B 10 101.00"; "O2 S 5 99.00" ]%string.

Definition exampleOrders : list Order :=
  [ mkOrder "O1" "B" 10 (Fin (101#1)) false 1;
    mkOrder "O2" "S" 5 (Fin (99#1)) false 2 ].

(** A book with an empty sell side. *)
Definition bidOnlyBook : OrderBook :=
  mkOrderBook [mkOrder "O1" "B" 10 (Fin (98#1)) false 1] [] (Fin (100#1)).

(** An input whose second line makes the quantity of the first overflow. *)
Definition overflowLines : list string :=
  [ "M1 S 2147483647 10"; "M2 B -1 20" ]%string.

(** Inputs with [nan] for a price. *)
Definition nanLines : list string := [ "O1 B 10 nan"; "O2 S 5 50" ]%string.

Definition nanBidLines : list string := [ "O1 B 10 nan"; "O2 B 5 50" ]%string.

(** * Properties *)

(** ** Price comparisons *)

Lemma Qlt_bool_iff (x y : Q) : Qlt_bool x y = true <-> (x < y)%Q.
Proof. unfold Qlt_bool, Qlt. apply Z.ltb_lt. Qed.

Lemma Qlt_bool_false_iff (x y : Q) : Qlt_bool x y = false <-> (y <= x)%Q.
Proof. unfold Qlt_bool, Qle. rewrite Z.ltb_ge. reflexivity. Qed.

Lemma Qle_bool_false_iff (x y : Q) : Qle_bool x y = false <-> (y < x)%Q.
Proof.
  split; intros H.
  - apply Qnot_le_lt. intros Hle. apply Qle_bool_iff in Hle. congruence.
  - destruct (Qle_bool x y) eqn:E; [|reflexivity].
    apply Qle_bool_iff in E. lra.
Qed.

Lemma Qeq_bool_false_iff (x y : Q) : Qeq_bool x y = false <-> ~ (x == y)%Q.
Proof.
  split; intros H.
  - now apply Qeq_bool_neq.
  - destruct (Qeq_bool x y) eqn:E; [|reflexivity].
    apply Qeq_bool_iff in E. contradiction.
Qed.

(** Boolean comparisons of rationals as propositions. *)
Ltac qprop :=
  repeat match goal with
  | H : Qlt_bool _ _ = true |- _ => apply Qlt_bool_iff in H
  | H : Qlt_bool _ _ = false |- _ => apply Qlt_bool_false_iff in H
  | H : Qle_bool _ _ = true |- _ => apply Qle_bool_iff in H
  | H : Qle_bool _ _ = false |- _ => apply Qle_bool_false_iff in H
  | H : Qeq_bool _ _ = true |- _ => apply Qeq_bool_iff in H
  | H : Qeq_bool _ _ = false |- _ => apply Qeq_bool_false_iff in H
  | |- Qlt_bool _ _ = true => apply Qlt_bool_iff
  | |- Qlt_bool _ _ = false => apply Qlt_bool_false_iff
  | |- Qle_bool _ _ = true => apply Qle_bool_iff
  | |- Qle_bool _ _ = false => apply Qle_bool_false_iff
  | |- Qeq_bool _ _ = true => apply Qeq_bool_iff
  | |- Qeq_bool _ _ = false => apply Qeq_bool_false_iff
  end.

(** Case analysis on every [double] in sight, then linear arithmetic on the
    finite values. *)
Ltac dcases :=
  repeat match goal with
  | d : double |- _ => destruct d as [|[|]|?]
  end;
  simpl in *; try congruence; try reflexivity; qprop;
  try (intro; lra); try lra.

Lemma dlt_irrefl (a : double) : dlt a a = false.
Proof. dcases. Qed.

Lemma dlt_asym (a b : double) : dlt a b = true -> dlt b a = false.
Proof. intros H. dcases. Qed.

Lemma dlt_trans (a b c : double) :
  dlt a b = true -> dlt b c = true -> dlt a c = true.
Proof. intros H1 H2. dcases. Qed.

Lemma deq_refl (a : double) : isNaN a = false -> deq a a = true.
Proof. intros H. dcases. Qed.

Lemma deq_sym (a b : double) : deq a b = deq b a.
Proof.
  destruct a as [|[|]|x], b as [|[|]|y]; simpl; try reflexivity.
  apply Qeq_bool_comm.
Qed.

Lemma deq_trans (a b c : double) :
  deq a b = true -> deq b c = true -> deq a c = true.
Proof. intros H1 H2. dcases. Qed.

Lemma dlt_deq_trans (a b c : double) :
  dlt a b = true -> deq b c = true -> dlt a c = true.
Proof. intros H1 H2. dcases. Qed.

Lemma deq_dlt_trans (a b c : double) :
  deq a b = true -> dlt b c = true -> dlt a c = true.
Proof. intros H1 H2. dcases. Qed.

Lemma deq_not_dlt (a b : double) : deq a b = true -> dlt a b = false.
Proof. intros H. dcases. Qed.

Lemma dlt_not_deq (a b : double) : dlt a b = true -> deq a b = false.
Proof. intros H. dcases. Qed.

(** Two values that are not NaN are in one of the three orders. *)
Lemma double_trichotomy (a b : double) :
  isNaN a = false -> isNaN b = false ->
  dlt a b = true \/ deq a b = true \/ dlt b a = true.
Proof.
  intros Ha Hb. destruct a as [|[|]|x], b as [|[|]|y]; simpl in *;
    try discriminate; auto.
  destruct (Q_dec x y) as [[H|H]|H].
  - left. now apply Qlt_bool_iff.
  - right; right. now apply Qlt_bool_iff.
  - right; left. now apply Qeq_bool_iff.
Qed.

Lemma dle_true_iff (a b : double) :
  dle a b = true <-> dlt a b = true \/ deq a b = true.
Proof.
  destruct a as [|[|]|x], b as [|[|]|y]; simpl; try tauto;
    try (split; [auto|intros [H|H]; congruence]).
  rewrite Qle_bool_iff, Qlt_bool_iff, Qeq_bool_iff. apply Qle_lteq.
Qed.

(** Without NaN, [not (a <= b)] is [b < a]. *)
Lemma dle_false_dlt (a b : double) :
  isNaN a = false -> isNaN b = false -> dle a b = false -> dlt b a = true.
Proof. intros Ha Hb H. dcases. Qed.

Lemma dlt_not_NaN (a b : double) :
  dlt a b = true -> isNaN a = false /\ isNaN b = false.
Proof. intros H. split; dcases. Qed.

Lemma deq_not_NaN (a b : double) :
  deq a b = true -> isNaN a = false /\ isNaN b = false.
Proof. intros H. split; dcases. Qed.

Lemma dle_not_NaN (a b : double) :
  dle a b = true -> isNaN a = false /\ isNaN b = false.
Proof. intros H. split; dcases. Qed.

(** A comparison with NaN is false. *)
Lemma dle_NaN (a b : double) :
  isNaN a = true \/ isNaN b = true -> dle a b = false /\ dlt a b = false.
Proof. intros [H|H]; split; dcases. Qed.

(** ** [Order::operator<] *)

Lemma order_lt_buy (a b : Order) :
  isBuy a = true ->
  isNaN (limitPrice a) = false -> isNaN (limitPrice b) = false ->
  (order_lt a b = false <-> bidRanksFirst a b).
Proof.
  intros Ha Na Nb. unfold order_lt, bidRanksFirst, dne. rewrite Ha.
  destruct (deq (limitPrice a) (limitPrice b)) eqn:E; simpl.
  - rewrite Z.gtb_ltb, Z.ltb_ge. split; [auto|].
    intros [H|[_ H]]; [|assumption].
    rewrite deq_sym in E. apply deq_not_dlt in E. congruence.
  - split.
    + intros H. left.
      destruct (double_trichotomy _ _ Na Nb) as [T|[T|T]]; congruence.
    + intros [H|[H _]]; [now apply dlt_asym|discriminate].
Qed.

Lemma order_lt_sell (a b : Order) :
  isBuy a = false ->
  isNaN (limitPrice a) = false -> isNaN (limitPrice b) = false ->
  (order_lt a b = false <-> askRanksFirst a b).
Proof.
  intros Ha Na Nb. unfold order_lt, askRanksFirst, dne, dgt. rewrite Ha.
  destruct (deq (limitPrice a) (limitPrice b)) eqn:E; simpl.
  - rewrite Z.gtb_ltb, Z.ltb_ge. split; [auto|].
    intros [H|[_ H]]; [|assumption].
    apply deq_not_dlt in E. congruence.
  - split.
    + intros H. left.
      destruct (double_trichotomy _ _ Na Nb) as [T|[T|T]]; congruence.
    + intros [H|[H _]]; [now apply dlt_asym|discriminate].
Qed.

Lemma bidRanksFirst_total (a b : Order) :
  isNaN (limitPrice a) = false -> isNaN (limitPrice b) = false ->
  bidRanksFirst a b \/ bidRanksFirst b a.
Proof.
  intros Na Nb. unfold bidRanksFirst.
  destruct (double_trichotomy _ _ Na Nb) as [T|[T|T]]; auto.
  destruct (Z.le_ge_cases (timestamp a) (timestamp b)); [auto|].
  right. right. rewrite deq_sym. split; [assumption|lia].
Qed.

Lemma bidRanksFirst_trans (a b c : Order) :
  bidRanksFirst a b -> bidRanksFirst b c -> bidRanksFirst a c.
Proof.
  unfold bidRanksFirst. intros [H1|[H1 T1]] [H2|[H2 T2]].
  - left. eapply dlt_trans; eassumption.
  - left. rewrite deq_sym in H2. eapply deq_dlt_trans; eassumption.
  - left. rewrite deq_sym in H1. eapply dlt_deq_trans; eassumption.
  - right. split; [eapply deq_trans; eassumption|lia].
Qed.

Lemma askRanksFirst_total (a b : Order) :
  isNaN (limitPrice a) = false -> isNaN (limitPrice b) = false ->
  askRanksFirst a b \/ askRanksFirst b a.
Proof.
  intros Na Nb. unfold askRanksFirst.
  destruct (double_trichotomy _ _ Na Nb) as [T|[T|T]]; auto.
  destruct (Z.le_ge_cases (timestamp a) (timestamp b)); [auto|].
  right. right. rewrite deq_sym. split; [assumption|lia].
Qed.

Lemma askRanksFirst_trans (a b c : Order) :
  askRanksFirst a b -> askRanksFirst b c -> askRanksFirst a c.
Proof.
  unfold askRanksFirst. intros [H1|[H1 T1]] [H2|[H2 T2]].
  - left. eapply dlt_trans; eassumption.
  - left. eapply dlt_deq_trans; eassumption.
  - left. eapply deq_dlt_trans; eassumption.
  - right. split; [eapply deq_trans; eassumption|lia].
Qed.

(** An order that is below another for [operator<] has a price, and so has
    the other. *)
Lemma order_lt_priced (a b : Order) :
  order_lt a b = true ->
  isNaN (limitPrice a) = false /\ isNaN (limitPrice b) = false.
Proof.
  unfold order_lt, dne, dgt. intros H.
  destruct (deq (limitPrice a) (limitPrice b)) eqn:E; simpl in H.
  - now apply deq_not_NaN.
  - destruct (isBuy a); apply dlt_not_NaN in H; tauto.
Qed.

Lemma order_lt_irrefl (a : Order) : order_lt a a = false.
Proof.
  unfold order_lt, dne, dgt. rewrite dlt_irrefl, Z.gtb_ltb, Z.ltb_irrefl.
  now destruct (isBuy a), (deq (limitPrice a) (limitPrice a)).
Qed.

Lemma order_lt_asym (a b : Order) :
  isBuy a = isBuy b -> order_lt a b = true -> order_lt b a = false.
Proof.
  intros Hab H. destruct (order_lt_priced _ _ H) as [Na Nb].
  destruct (isBuy b) eqn:Hb.
  - apply order_lt_buy; try assumption.
    destruct (bidRanksFirst_total a b Na Nb) as [H'|H']; [|assumption].
    apply order_lt_buy in H'; congruence.
  - apply order_lt_sell; try assumption.
    destruct (askRanksFirst_total a b Na Nb) as [H'|H']; [|assumption].
    apply order_lt_sell in H'; congruence.
Qed.

(** Incomparability is transitive through an order whose price is not
    NaN. *)
Lemma order_lt_negtrans (a b c : Order) :
  isBuy a = isBuy b -> isNaN (limitPrice b) = false ->
  order_lt a b = false -> order_lt b c = false -> order_lt a c = false.
Proof.
  intros Hab Nb H1 H2.
  destruct (order_lt a c) eqn:E; [|reflexivity]. exfalso.
  destruct (order_lt_priced _ _ E) as [Na Nc].
  destruct (isBuy b) eqn:Hb.
  - apply order_lt_buy in H1, H2; try assumption.
    pose proof (bidRanksFirst_trans _ _ _ H1 H2) as H3.
    apply order_lt_buy in H3; congruence.
  - apply order_lt_sell in H1, H2; try assumption.
    pose proof (askRanksFirst_trans _ _ _ H1 H2) as H3.
    apply order_lt_sell in H3; congruence.
Qed.

Lemma order_lt_trans (a b c : Order) :
  isBuy a = isBuy b -> isBuy b = isBuy c ->
  order_lt a b = true -> order_lt b c = true -> order_lt a c = true.
Proof.
  intros Hab Hbc H1 H2.
  destruct (order_lt a c) eqn:E; [reflexivity|].
  assert (Hcb : order_lt c b = false)
    by (apply order_lt_asym; [now symmetry|assumption]).
  assert (Hac : isBuy a = isBuy c) by congruence.
  destruct (order_lt_priced _ _ H2) as [_ Nc].
  pose proof (order_lt_negtrans a c b Hac Nc E Hcb). congruence.
Qed.

(** ** The priority queue *)

Lemma extract_None (q : PriorityQueue) : extract q = None <-> q = [].
Proof.
  destruct q as [|x q]; simpl; [tauto|].
  split; [|discriminate].
  destruct (extract q) as [[m r]|]; [destruct (order_lt x m)|]; discriminate.
Qed.

Lemma extract_Permutation (q : PriorityQueue) (m : Order) (r : PriorityQueue) :
  extract q = Some (m, r) -> Permutation q (m :: r).
Proof.
  revert m r. induction q as [|x q IH]; simpl; intros m r H; [discriminate|].
  destruct (extract q) as [[m' r']|] eqn:E.
  - specialize (IH m' r' eq_refl).
    destruct (order_lt x m'); inversion H; subst; clear H.
    + rewrite perm_swap. now constructor.
    + reflexivity.
  - apply extract_None in E. subst. inversion H; subst. reflexivity.
Qed.

Lemma extract_length (q : PriorityQueue) (m : Order) (r : PriorityQueue) :
  extract q = Some (m, r) -> List.length q = S (List.length r).
Proof.
  intros H. apply extract_Permutation, Permutation_length in H. exact H.
Qed.

Lemma extract_In (q : PriorityQueue) (m : Order) (r : PriorityQueue) :
  extract q = Some (m, r) -> In m q.
Proof.
  intros H. apply extract_Permutation in H.
  eapply Permutation_in; [symmetry; exact H|now left].
Qed.

(** The element [extract] returns is a greatest one: no order of the queue
    is above it for [operator<]. *)
Lemma extract_greatest (q : PriorityQueue) (m : Order) (r : PriorityQueue) :
  (allBuys q \/ allSells q) -> allPriced q ->
  extract q = Some (m, r) -> forall o, In o q -> order_lt m o = false.
Proof.
  intros Hside Hpriced. revert m r.
  unfold allPriced in Hpriced. rewrite Forall_forall in Hpriced.
  assert (Hsame : forall a b, In a q -> In b q -> isBuy a = isBuy b).
  { intros a b Ha Hb. destruct Hside as [H|H];
      unfold allBuys, allSells in H; rewrite Forall_forall in H;
      rewrite (H a Ha), (H b Hb); reflexivity. }
  clear Hside. induction q as [|x q IH]; simpl; intros m r H o Ho; [contradiction|].
  assert (Hsame' : forall a b, In a q -> In b q -> isBuy a = isBuy b).
  { intros a b Ha Hb. apply Hsame; now right. }
  assert (Hpriced' : forall a, In a q -> isNaN (limitPrice a) = false).
  { intros a Ha. apply Hpriced. now right. }
  destruct (extract q) as [[m' r']|] eqn:E.
  - pose proof (extract_In _ _ _ E) as Hm'.
    specialize (IH Hpriced' Hsame' m' r' eq_refl).
    destruct (order_lt x m') eqn:Hlt; inversion H; subst; clear H.
    + destruct Ho as [<-|Ho]; [|now apply IH].
      apply order_lt_asym; [|assumption].
      apply Hsame; [now left|now right].
    + destruct Ho as [<-|Ho]; [apply order_lt_irrefl|].
      apply order_lt_negtrans with (b := m');
        [|now apply Hpriced'|assumption|now apply IH].
      apply Hsame; [now left|now right].
  - apply extract_None in E. subst. inversion H; subst.
    destruct Ho as [<-|[]]. apply order_lt_irrefl.
Qed.

(** Two greatest elements of a one-sided queue have the same price and the
    same timestamp: where the timestamps of a queue are pairwise distinct, as
    they are in a run of [main], the top of the queue is the same for every
    implementation of [std::priority_queue]. *)
Lemma greatest_unique (q : PriorityQueue) (m m' : Order) :
  (allBuys q \/ allSells q) -> allPriced q ->
  In m q -> In m' q ->
  (forall o, In o q -> order_lt m o = false) ->
  (forall o, In o q -> order_lt m' o = false) ->
  deq (limitPrice m) (limitPrice m') = true /\ timestamp m = timestamp m'.
Proof.
  intros Hside Hpriced Hm Hm' G G'.
  pose proof (G m' Hm') as H1. pose proof (G' m Hm) as H2.
  unfold allPriced in Hpriced. rewrite Forall_forall in Hpriced.
  pose proof (Hpriced m Hm) as Nm. pose proof (Hpriced m' Hm') as Nm'.
  destruct Hside as [Hq|Hq]; unfold allBuys, allSells in Hq;
    rewrite Forall_forall in Hq.
  - apply order_lt_buy in H1, H2; try (now apply Hq); try assumption.
    destruct H1 as [H1|[H1 T1]], H2 as [H2|[H2 T2]].
    + apply dlt_asym in H1. congruence.
    + apply deq_not_dlt in H2. congruence.
    + apply deq_not_dlt in H1. congruence.
    + split; [assumption|lia].
  - apply order_lt_sell in H1, H2; try (now apply Hq); try assumption.
    destruct H1 as [H1|[H1 T1]], H2 as [H2|[H2 T2]].
    + apply dlt_asym in H1. congruence.
    + rewrite deq_sym in H2. apply deq_not_dlt in H2. congruence.
    + rewrite deq_sym in H1. apply deq_not_dlt in H1. congruence.
    + split; [assumption|lia].
Qed.

Lemma empty_true (q : PriorityQueue) : empty q = true <-> q = [].
Proof. destruct q; simpl; split; congruence. Qed.

Lemma top_extract (q : PriorityQueue) (m : Order) :
  top q = Some m <-> exists r, extract q = Some (m, r).
Proof.
  unfold top. destruct (extract q) as [[m' r']|]; simpl; split.
  - intros H; inversion H; subst; eauto.
  - intros [r H]; inversion H; subst; reflexivity.
  - discriminate.
  - intros [r H]; discriminate.
Qed.

Lemma pop_extract (q : PriorityQueue) (m : Order) (r : PriorityQueue) :
  extract q = Some (m, r) -> pop q = r.
Proof. unfold pop. now intros ->. Qed.

Lemma top_None (q : PriorityQueue) : top q = None <-> q = [].
Proof.
  unfold top. rewrite <- extract_None.
  destruct (extract q) as [[m r]|]; simpl; split; congruence.
Qed.

Lemma top_In (q : PriorityQueue) (m : Order) : top q = Some m -> In m q.
Proof. intros H. apply top_extract in H as [r H]. eapply extract_In; eassumption. Qed.

(** [top] then [pop] split a queue that is not empty into its greatest
    element and the rest. *)
Lemma top_pop_Permutation (q : PriorityQueue) (m : Order) :
  top q = Some m -> Permutation q (m :: pop q).
Proof.
  intros H. apply top_extract in H as [r H].
  rewrite (pop_extract _ _ _ H). now apply extract_Permutation.
Qed.

Lemma top_greatest (q : PriorityQueue) (m : Order) :
  (allBuys q \/ allSells q) -> allPriced q ->
  top q = Some m -> forall o, In o q -> order_lt m o = false.
Proof.
  intros Hs Hp H. apply top_extract in H as [r H].
  eapply extract_greatest; eassumption.
Qed.

(** ** One iteration of the sweep *)

(** The book after a trade of [buy] against [sell]. *)
Lemma matchStep_Some_inv (st st' : OrderBook) (t : Trade) :
  matchStep st = Some (st', t) ->
  exists buy sell,
    top (buyOrders st) = Some buy /\ top (sellOrders st) = Some sell /\
    canMatch buy sell = true /\
    t = mkTrade buy sell (Z.min (quantity buy) (quantity sell))
          (determinePrice st buy sell) /\
    st' = mkOrderBook
            (if quantity buy >? Z.min (quantity buy) (quantity sell)
             then push (setQuantity buy
                          (wrapInt (quantity buy - Z.min (quantity buy) (quantity sell))))
                       (pop (buyOrders st))
             else pop (buyOrders st))
            (if quantity sell >? Z.min (quantity buy) (quantity sell)
             then push (setQuantity sell
                          (wrapInt (quantity sell - Z.min (quantity buy) (quantity sell))))
                       (pop (sellOrders st))
             else pop (sellOrders st))
            (determinePrice st buy sell).
Proof.
  unfold matchStep. intros H.
  destruct (empty (buyOrders st) || empty (sellOrders st)); [discriminate|].
  destruct (top (buyOrders st)) as [buy|]; [|discriminate].
  destruct (top (sellOrders st)) as [sell|]; [|discriminate].
  destruct (canMatch buy sell) eqn:Hc; simpl in H; [|discriminate].
  inversion H; subst; clear H. exists buy, sell. repeat split; try reflexivity; assumption.
Qed.

Lemma matchStep_None_inv (st : OrderBook) :
  matchStep st = None ->
  buyOrders st = [] \/ sellOrders st = [] \/
  exists buy sell,
    top (buyOrders st) = Some buy /\ top (sellOrders st) = Some sell /\
    canMatch buy sell = false.
Proof.
  unfold matchStep. intros H.
  destruct (buyOrders st) as [|b bs] eqn:Eb; [now left|].
  destruct (sellOrders st) as [|s ss] eqn:Es; [now right; left|].
  right; right. simpl in H.
  destruct (top (b :: bs)) as [buy|] eqn:Tb;
    [|apply top_None in Tb; discriminate].
  destruct (top (s :: ss)) as [sell|] eqn:Ts;
    [|apply top_None in Ts; discriminate].
  exists buy, sell. destruct (canMatch buy sell); [discriminate|auto].
Qed.

Lemma matchStep_None_intro (st : OrderBook) (buy sell : Order) :
  top (buyOrders st) = Some buy -> top (sellOrders st) = Some sell ->
  canMatch buy sell = false -> matchStep st = None.
Proof.
  intros Tb Ts Hc. unfold matchStep. rewrite Tb, Ts, Hc.
  now destruct (empty (buyOrders st) || empty (sellOrders st)).
Qed.

Lemma matchStep_Some_intro (st : OrderBook) (buy sell : Order) :
  top (buyOrders st) = Some buy -> top (sellOrders st) = Some sell ->
  canMatch buy sell = true ->
  exists st', matchStep st =
    Some (st', mkTrade buy sell (Z.min (quantity buy) (quantity sell))
                 (determinePrice st buy sell)).
Proof.
  intros Tb Ts Hc. unfold matchStep. rewrite Tb, Ts, Hc.
  assert (Eb : empty (buyOrders st) = false).
  { destruct (buyOrders st); [discriminate|reflexivity]. }
  assert (Es : empty (sellOrders st) = false).
  { destruct (sellOrders st); [discriminate|reflexivity]. }
  rewrite Eb, Es. simpl. eauto.
Qed.

Lemma pop_length (q : PriorityQueue) (m : Order) :
  top q = Some m -> List.length q = S (List.length (pop q)).
Proof.
  intros H. apply top_pop_Permutation, Permutation_length in H. exact H.
Qed.

Lemma push_length (o : Order) (q : PriorityQueue) :
  List.length (push o q) = S (List.length q).
Proof. unfold push. rewrite length_app. simpl. lia. Qed.

(** Every iteration takes an order out of the book for good: the one with
    the smaller quantity is filled and is not pushed back. *)
Lemma matchStep_bookSize (st st' : OrderBook) (t : Trade) :
  matchStep st = Some (st', t) -> (bookSize st' < bookSize st)%nat.
Proof.
  intros H. apply matchStep_Some_inv in H
    as (buy & sell & Tb & Ts & _ & _ & ->).
  unfold bookSize. simpl.
  rewrite (pop_length _ _ Tb), (pop_length _ _ Ts).
  destruct (Z.min_spec (quantity buy) (quantity sell)) as [[Hlt ->]|[Hle ->]].
  - rewrite (Z.gtb_ltb (quantity buy)), Z.ltb_irrefl.
    destruct (quantity sell >? quantity buy); rewrite ?push_length; lia.
  - rewrite (Z.gtb_ltb (quantity sell)), Z.ltb_irrefl.
    destruct (quantity buy >? quantity sell); rewrite ?push_length; lia.
Qed.

Lemma wrapInt_small (z : Z) : INT_MIN <= z <= INT_MAX -> wrapInt z = z.
Proof.
  unfold wrapInt, INT_MIN, INT_MAX. intros H.
  rewrite Z.mod_small by lia. lia.
Qed.

Lemma wrapInt_range (z : Z) : INT_MIN <= wrapInt z <= INT_MAX.
Proof.
  unfold wrapInt, INT_MIN, INT_MAX.
  pose proof (Z.mod_pos_bound (z + 2147483648) 4294967296 ltac:(lia)). lia.
Qed.

(** Quantities that start in [1 .. bound] stay there, and so does the traded
    quantity: with positive quantities [quantity -= tradedQuantity] never
    leaves the range of [int]. *)
Lemma matchStep_quantities_in_range (bound : Z) (st st' : OrderBook) (t : Trade) :
  bound <= INT_MAX ->
  Forall (fun o => 0 < quantity o <= bound) (resting st) ->
  matchStep st = Some (st', t) ->
  Forall (fun o => 0 < quantity o <= bound) (resting st') /\
  0 < tradedQuantity t <= bound.
Proof.
  intros Hbound Hq H. apply matchStep_Some_inv in H
    as (buy & sell & Tb & Ts & _ & -> & ->).
  unfold resting in *. apply Forall_app in Hq as [Hb Hs].
  rewrite (top_pop_Permutation _ _ Tb) in Hb.
  rewrite (top_pop_Permutation _ _ Ts) in Hs.
  apply Forall_cons_iff in Hb as [Hbuy Hb].
  apply Forall_cons_iff in Hs as [Hsell Hs].
  simpl. split; [|lia].
  apply Forall_app. split.
  - destruct (quantity buy >? _) eqn:E; [|assumption].
    rewrite Z.gtb_ltb in E. apply Z.ltb_lt in E.
    unfold push. apply Forall_app. split; [assumption|].
    constructor;
      [simpl; rewrite wrapInt_small by (unfold INT_MAX, INT_MIN in *; lia); lia
      |constructor].
  - destruct (quantity sell >? _) eqn:E; [|assumption].
    rewrite Z.gtb_ltb in E. apply Z.ltb_lt in E.
    unfold push. apply Forall_app. split; [assumption|].
    constructor;
      [simpl; rewrite wrapInt_small by (unfold INT_MAX, INT_MIN in *; lia); lia
      |constructor].
Qed.

(** ** The sweep *)

Lemma sweep_exits (st st' : OrderBook) (ts : list Trade) :
  sweep st ts st' -> matchStep st' = None.
Proof. induction 1; assumption. Qed.

Lemma sweep_functional (st st1 st2 : OrderBook) (ts1 ts2 : list Trade) :
  sweep st ts1 st1 -> sweep st ts2 st2 -> ts1 = ts2 /\ st1 = st2.
Proof.
  intros H1. revert ts2 st2.
  induction H1 as [st E|st st' st'' t ts E _ IH]; intros ts2 st2 H2.
  - destruct H2 as [st _|st sa sb t' ts' E' _]; [auto|congruence].
  - destruct H2 as [st E'|st sa sb t' ts' E' H2]; [congruence|].
    rewrite E in E'. inversion E'; subst; clear E'.
    destruct (IH _ _ H2) as [-> ->]. auto.
Qed.

(** With at least [bookSize st] iterations allowed, [matchLoop] runs the
    loop to its exit: the fuel is never what stops it. *)
Lemma matchLoop_sweep (fuel : nat) (st : OrderBook) (output : list Line) :
  (bookSize st <= fuel)%nat ->
  exists ts st',
    sweep st ts st' /\ (List.length ts <= bookSize st)%nat /\
    matchLoop fuel st output = (st', output ++ flat_map tradeLines ts).
Proof.
  revert st output. induction fuel as [|fuel IH]; intros st output Hsz.
  - exists [], st. simpl. rewrite app_nil_r. repeat split; [|lia].
    constructor. unfold matchStep.
    unfold bookSize in Hsz.
    destruct (buyOrders st); [reflexivity|simpl in Hsz; lia].
  - simpl. destruct (matchStep st) as [[st1 t]|] eqn:E.
    + pose proof (matchStep_bookSize _ _ _ E) as Hlt.
      destruct (IH st1 (output ++ tradeLines t)) as (ts & st' & Hs & Hn & Hl);
        [lia|].
      exists (t :: ts), st'. repeat split.
      * econstructor; eassumption.
      * simpl. lia.
      * rewrite Hl. simpl flat_map. now rewrite <- app_assoc.
    + exists [], st. simpl. rewrite app_nil_r. repeat split; [|lia].
      now constructor.
Qed.

Lemma matchOrders_sweep (st : OrderBook) (output : list Line) :
  exists ts st',
    sweep st ts st' /\ (List.length ts <= bookSize st)%nat /\
    matchOrders st output = (st', output ++ flat_map tradeLines ts).
Proof. unfold matchOrders. apply matchLoop_sweep. lia. Qed.

Lemma matchOrders_exits (st : OrderBook) (output : list Line) :
  matchStep (fst (matchOrders st output)) = None.
Proof.
  destruct (matchOrders_sweep st output) as (ts & st' & Hs & _ & ->).
  simpl. eapply sweep_exits; eassumption.
Qed.

(** More fuel than [bookSize st] changes nothing. *)
Lemma matchLoop_enough (fuel : nat) (st : OrderBook) (output : list Line) :
  (bookSize st <= fuel)%nat -> matchLoop fuel st output = matchOrders st output.
Proof.
  intros Hsz.
  destruct (matchLoop_sweep fuel st output Hsz) as (ts & st' & Hs & _ & ->).
  destruct (matchOrders_sweep st output) as (ts2 & st2 & Hs2 & _ & ->).
  destruct (sweep_functional _ _ _ _ _ Hs Hs2) as [-> ->]. reflexivity.
Qed.

(** When the loop exits with both queues non-empty, neither top is a market
    order and the best bid is below the best ask. *)
Lemma exit_no_cross (st : OrderBook) :
  matchStep st = None ->
  buyOrders st = [] \/ sellOrders st = [] \/
  exists bid ask,
    top (buyOrders st) = Some bid /\ top (sellOrders st) = Some ask /\
    isMarketOrder bid = false /\ isMarketOrder ask = false /\
    dge (limitPrice bid) (limitPrice ask) = false /\
    (isNaN (limitPrice bid) = false -> isNaN (limitPrice ask) = false ->
     dlt (limitPrice bid) (limitPrice ask) = true).
Proof.
  intros H. apply matchStep_None_inv in H as [H|[H|(bid & ask & Tb & Ts & Hc)]];
    [now left|now right; left|].
  right; right. exists bid, ask. unfold canMatch in Hc.
  apply orb_false_iff in Hc as [Hc Hp]. apply orb_false_iff in Hc as [Hb Ha].
  repeat split; try assumption.
  intros Nb Na. unfold dge in Hp. now apply dle_false_dlt.
Qed.

Lemma canMatch_iff (buy sell : Order) :
  canMatch buy sell = true <->
  isMarketOrder buy = true \/ isMarketOrder sell = true
  \/ dge (limitPrice buy) (limitPrice sell) = true.
Proof.
  unfold canMatch. rewrite !orb_true_iff. tauto.
Qed.


(** An iteration that trades is followed by the sweep of the book it
    leaves. *)
Lemma matchOrders_unfold (st st' : OrderBook) (t : Trade) (output : list Line) :
  matchStep st = Some (st', t) ->
  matchOrders st output = matchOrders st' (output ++ tradeLines t).
Proof.
  intros E. pose proof (matchStep_bookSize _ _ _ E) as Hlt.
  unfold matchOrders at 1. destruct (bookSize st) as [|n]; [lia|].
  simpl. rewrite E. apply matchLoop_enough. lia.
Qed.

Lemma matchLoop_at_exit (fuel : nat) (st : OrderBook) (output : list Line) :
  matchStep st = None -> matchLoop fuel st output = (st, output).
Proof. intros E. destruct fuel; simpl; [reflexivity|now rewrite E]. Qed.

(** ** The price rule *)

(** C1.  For the pair (buy [B], sell [A]) an iteration of the sweep trades:
    when both are limit orders the execution price is the [limitPrice] of the
    one with the lower [timestamp]; when exactly one is a market order it is
    the [limitPrice] of the other; when both are market orders it is the
    [lastTradedPrice] of the book, which is the same after the trade.  [B] and
    [A] are the tops of the two queues, the execution price is the price
    written in the two records of the trade, and the book keeps it as its
    [lastTradedPrice]. *)
Theorem execution_price_rule (st st' : OrderBook) (t : Trade) :
  matchStep st = Some (st', t) ->
  top (buyOrders st) = Some (tradeBuy t) /\
  top (sellOrders st) = Some (tradeSell t) /\
  (isMarketOrder (tradeBuy t) = false -> isMarketOrder (tradeSell t) = false ->
   timestamp (tradeBuy t) < timestamp (tradeSell t) ->
   executionPrice t = limitPrice (tradeBuy t)) /\
  (isMarketOrder (tradeBuy t) = false -> isMarketOrder (tradeSell t) = false ->
   timestamp (tradeSell t) < timestamp (tradeBuy t) ->
   executionPrice t = limitPrice (tradeSell t)) /\
  (isMarketOrder (tradeBuy t) = true -> isMarketOrder (tradeSell t) = false ->
   executionPrice t = limitPrice (tradeSell t)) /\
  (isMarketOrder (tradeBuy t) = false -> isMarketOrder (tradeSell t) = true ->
   executionPrice t = limitPrice (tradeBuy t)) /\
  (isMarketOrder (tradeBuy t) = true -> isMarketOrder (tradeSell t) = true ->
   executionPrice t = lastTradedPrice st /\
   lastTradedPrice st' = lastTradedPrice st) /\
  lastTradedPrice st' = executionPrice t /\
  tradeLines t =
    [ Purchased (id (tradeBuy t)) (tradedQuantity t) (executionPrice t);
      Sold (id (tradeSell t)) (tradedQuantity t) (executionPrice t) ].
Proof.
  intros H. apply matchStep_Some_inv in H
    as (buy & sell & Tb & Ts & _ & -> & ->).
  simpl. unfold determinePrice.
  split; [assumption|]. split; [assumption|].
  split; [|split; [|split; [|split; [|split; [|split; reflexivity]]]]].
  - intros -> -> Hlt. simpl. apply Z.ltb_lt in Hlt. now rewrite Hlt.
  - intros -> -> Hlt. simpl.
    destruct (timestamp buy <? timestamp sell) eqn:E; [|reflexivity].
    apply Z.ltb_lt in E. lia.
  - intros -> ->. reflexivity.
  - intros -> ->. reflexivity.
  - intros -> ->. split; reflexivity.
Qed.

Lemma execution_price_rule_witness :
  matchStep exampleBook
  = Some (mkOrderBook [mkOrder "O1" "B" 5 (Fin (101#1)) false 1] [] (Fin (101#1)),
          mkTrade (mkOrder "O1" "B" 10 (Fin (101#1)) false 1)
                  (mkOrder "O2" "S" 5 (Fin (99#1)) false 2) 5 (Fin (101#1)))
  /\ lastTradedPrice
       (mkOrderBook [mkOrder "O1" "B" 5 (Fin (101#1)) false 1] [] (Fin (101#1)))
     = Fin (101#1).
Proof.
  split; [reflexivity|].
  destruct (execution_price_rule exampleBook _ _ eq_refl)
    as (_ & _ & _ & _ & _ & _ & _ & H & _).
  exact H.
Defined.

(** ** The cross test *)

(** C2.  With [B] the best buy and [A] the best sell of a book, the sweep
    trades [B] against [A] exactly when [B] is a market order, or [A] is a
    market order, or [B.limitPrice >= A.limitPrice].  When it does, [B] and
    [A] are taken out of their queues, [min B.quantity A.quantity] shares
    trade at the price of [determinePrice], the two records of the trade are
    written, whichever of the two has shares left is pushed back with them,
    and the sweep goes on from that book.  When it does not, [matchOrders]
    returns the book as it was, both queues included, and writes nothing. *)
Theorem sweep_trades_iff_cross (st : OrderBook) (B A : Order) :
  top (buyOrders st) = Some B -> top (sellOrders st) = Some A ->
  let crossing :=
    isMarketOrder B = true \/ isMarketOrder A = true
    \/ dge (limitPrice B) (limitPrice A) = true in
  let traded := Z.min (quantity B) (quantity A) in
  let price := determinePrice st B A in
  ((exists st' t, matchStep st = Some (st', t)) <-> crossing) /\
  (crossing ->
   exists buys sells,
     Permutation (buyOrders st) (B :: buys) /\
     Permutation (sellOrders st) (A :: sells) /\
     let st' :=
       mkOrderBook
         (if quantity B >? traded
          then buys ++ [setQuantity B (wrapInt (quantity B - traded))]
          else buys)
         (if quantity A >? traded
          then sells ++ [setQuantity A (wrapInt (quantity A - traded))]
          else sells)
         price in
     matchStep st = Some (st', mkTrade B A traded price) /\
     forall output,
       matchOrders st output
       = matchOrders st'
           (output ++ [ Purchased (id B) traded price; Sold (id A) traded price ])) /\
  (~ crossing ->
   matchStep st = None /\ forall output, matchOrders st output = (st, output)).
Proof.
  intros Tb Ts crossing traded price. subst crossing traded price.
  rewrite <- canMatch_iff. split; [split|split].
  - intros (st' & t & H).
    apply matchStep_Some_inv in H as (buy & sell & Tb' & Ts' & Hc & _).
    congruence.
  - intros Hc. destruct (matchStep_Some_intro st B A Tb Ts Hc) as [st' H]. eauto.
  - intros Hc. exists (pop (buyOrders st)), (pop (sellOrders st)).
    split; [now apply top_pop_Permutation|].
    split; [now apply top_pop_Permutation|].
    destruct (matchStep_Some_intro st B A Tb Ts Hc) as [st' H].
    pose proof H as H'.
    apply matchStep_Some_inv in H'
      as (buy & sell & Tb' & Ts' & _ & _ & E).
    rewrite Tb in Tb'. rewrite Ts in Ts'.
    inversion Tb'; inversion Ts'; subst buy sell.
    cbv zeta. unfold push in E. rewrite <- E.
    split; [exact H|].
    intros output. apply (matchOrders_unfold _ _ _ output H).
  - intros Hc. apply not_true_is_false in Hc.
    pose proof (matchStep_None_intro st B A Tb Ts Hc) as E.
    split; [exact E|]. intros output. now apply matchLoop_at_exit.
Qed.

Lemma sweep_trades_iff_cross_witness :
  (top (buyOrders exampleBook) = Some (mkOrder "O1" "B" 10 (Fin (101#1)) false 1) /\
   top (sellOrders exampleBook) = Some (mkOrder "O2" "S" 5 (Fin (99#1)) false 2)) /\
  matchOrders exampleBook []
  = (mkOrderBook [mkOrder "O1" "B" 5 (Fin (101#1)) false 1] [] (Fin (101#1)),
     [ Purchased "O1" 5 (Fin (101#1)); Sold "O2" 5 (Fin (101#1)) ]).
Proof.
  split; [split; reflexivity|].
  destruct (sweep_trades_iff_cross exampleBook
              (mkOrder "O1" "B" 10 (Fin (101#1)) false 1)
              (mkOrder "O2" "S" 5 (Fin (99#1)) false 2) eq_refl eq_refl)
    as (_ & Hcross & _).
  destruct Hcross as (buys & sells & Pb & Ps & _ & Hm);
    [right; right; reflexivity|].
  apply Permutation_length in Pb, Ps.
  destruct buys; [|discriminate]. destruct sells; [|discriminate].
  rewrite (Hm []). reflexivity.
Defined.

(** ** No cross is left behind *)

(** C5 fails on the program: with the bid [O1 B 10 nan] resting, the ask
    [O2 S 5 50] is added and the sweep stops at once, as [nan >= 50] is
    false; both queues then hold an order, neither is a market order, and
    the price of the bid is not below the price of the ask. *)
Lemma nan_bid_is_left_crossed :
  parseLines sampleRuntime nanLines 0
  = Some [ mkOrder "O1" "B" 10 NaN false 1;
           mkOrder "O2" "S" 5 (Fin (50#1)) false 2 ] /\
  let st := fst (submit (mkOrder "O2" "S" 5 (Fin (50#1)) false 2)
                   (fst (submit (mkOrder "O1" "B" 10 NaN false 1)
                           (newOrderBook (Fin (100#1))) [])) []) in
  top (buyOrders st) = Some (mkOrder "O1" "B" 10 NaN false 1) /\
  top (sellOrders st) = Some (mkOrder "O2" "S" 5 (Fin (50#1)) false 2) /\
  ~ (buyOrders st = [] \/ sellOrders st = [] \/
     exists bid ask,
       top (buyOrders st) = Some bid /\ top (sellOrders st) = Some ask /\
       (isMarketOrder bid = true \/ isMarketOrder ask = true
        \/ dlt (limitPrice bid) (limitPrice ask) = true)).
Proof.
  split; [reflexivity|]. cbv zeta.
  split; [reflexivity|]. split; [reflexivity|].
  intros [H|[H|(bid & ask & Tb & Ts & H)]]; try discriminate.
  vm_compute in Tb, Ts. inversion Tb; inversion Ts; subst.
  destruct H as [H|[H|H]]; discriminate.
Qed.

(** C5, as the program has it.  After [submit] (the order is added, then the
    book is swept) a queue is empty, or one of the two tops is a market
    order, or one of the two top prices is NaN, or the price of the best bid
    is strictly below the price of the best ask. *)
Theorem submit_leaves_no_cross (order : Order) (st : OrderBook) (output : list Line) :
  let st' := fst (submit order st output) in
  buyOrders st' = [] \/ sellOrders st' = [] \/
  exists bid ask,
    top (buyOrders st') = Some bid /\ top (sellOrders st') = Some ask /\
    (isMarketOrder bid = true \/ isMarketOrder ask = true
     \/ isNaN (limitPrice bid) = true \/ isNaN (limitPrice ask) = true
     \/ dlt (limitPrice bid) (limitPrice ask) = true).
Proof.
  intros st'. subst st'. unfold submit.
  destruct (exit_no_cross _ (matchOrders_exits (addOrder order st) output))
    as [H|[H|(bid & ask & Tb & Ts & _ & _ & _ & Hlt)]];
    [now left|now right; left|].
  right; right. exists bid, ask. split; [assumption|]. split; [assumption|].
  destruct (isNaN (limitPrice bid)) eqn:Nb; [auto|].
  destruct (isNaN (limitPrice ask)) eqn:Na; [auto|].
  right; right; right; right. now apply Hlt.
Qed.

(** ** Termination of the sweep *)

(** C8.  From every book the loop of [matchOrders] exits after finitely many
    iterations, at most as many as there are orders in the book: there is a
    finite run [sweep st ts st'] of the loop, and [matchOrders] returns its
    final book with the records of its trades appended to the output.  This
    needs no assumption on the quantities. *)
Theorem matchOrders_terminates (st : OrderBook) (output : list Line) :
  exists (ts : list Trade) (st' : OrderBook),
    sweep st ts st' /\
    (List.length ts <= bookSize st)%nat /\
    matchStep st' = None /\
    matchOrders st output = (st', output ++ flat_map tradeLines ts).
Proof.
  destruct (matchOrders_sweep st output) as (ts & st' & Hs & Hn & E).
  exists ts, st'. repeat split; try assumption.
  eapply sweep_exits; eassumption.
Qed.

(** ** Books that [main] builds are well sided *)

Lemma allBuys_Permutation (q q' : PriorityQueue) :
  Permutation q q' -> allBuys q -> allBuys q'.
Proof. unfold allBuys. intros P H. now rewrite <- P. Qed.

Lemma allSells_Permutation (q q' : PriorityQueue) :
  Permutation q q' -> allSells q -> allSells q'.
Proof. unfold allSells. intros P H. now rewrite <- P. Qed.

Lemma wellSided_new (initialPrice : double) : wellSided (newOrderBook initialPrice).
Proof. split; constructor. Qed.

Lemma wellSided_addOrder (order : Order) (st : OrderBook) :
  wellSided st -> wellSided (addOrder order st).
Proof.
  intros [Hb Hs]. unfold addOrder, wellSided, allBuys, allSells, push in *.
  destruct (isBuy order) eqn:E; simpl; split; try assumption;
    apply Forall_app; split; try assumption; constructor; auto.
Qed.

Lemma wellSided_matchStep (st st' : OrderBook) (t : Trade) :
  wellSided st -> matchStep st = Some (st', t) -> wellSided st'.
Proof.
  intros [Hb Hs] H.
  apply matchStep_Some_inv in H as (buy & sell & Tb & Ts & _ & _ & ->).
  pose proof (allBuys_Permutation _ _ (top_pop_Permutation _ _ Tb) Hb) as Hb'.
  pose proof (allSells_Permutation _ _ (top_pop_Permutation _ _ Ts) Hs) as Hs'.
  unfold allBuys, allSells in Hb', Hs'.
  apply Forall_cons_iff in Hb' as [Hbuy Hb'].
  apply Forall_cons_iff in Hs' as [Hsell Hs'].
  unfold wellSided, allBuys, allSells, push. simpl. split.
  - destruct (quantity buy >? _); [|assumption].
    apply Forall_app; split; [assumption|]. constructor; auto.
  - destruct (quantity sell >? _); [|assumption].
    apply Forall_app; split; [assumption|]. constructor; auto.
Qed.

Lemma wellSided_sweep (st st' : OrderBook) (ts : list Trade) :
  sweep st ts st' -> wellSided st -> wellSided st'.
Proof.
  induction 1 as [st E|st st1 st2 t ts E _ IH]; intros Hw; [assumption|].
  apply IH. eapply wellSided_matchStep; eassumption.
Qed.

Lemma wellSided_submit (order : Order) (st : OrderBook) (output : list Line) :
  wellSided st -> wellSided (fst (submit order st output)).
Proof.
  intros Hw. unfold submit.
  destruct (matchOrders_sweep (addOrder order st) output) as (ts & st' & Hs & _ & ->).
  simpl. eapply wellSided_sweep; [eassumption|]. now apply wellSided_addOrder.
Qed.

Lemma wellSided_submitAll (orders : list Order) (st : OrderBook)
  (output : list Line) :
  wellSided st -> wellSided (fst (submitAll orders st output)).
Proof.
  revert st output.
  induction orders as [|order rest IH]; intros st output Hw; simpl; [assumption|].
  pose proof (wellSided_submit order st output Hw) as Hw'.
  destruct (submit order st output) as [st' output'].
  now apply IH.
Qed.

(** ** Price-time priority of the queues *)

Lemma top_bid_best (q : PriorityQueue) (b o : Order) :
  allBuys q -> allPriced q -> top q = Some b -> In o q ->
  dle (limitPrice o) (limitPrice b) = true /\
  (deq (limitPrice o) (limitPrice b) = true -> timestamp b <= timestamp o).
Proof.
  intros Hq Hp Tb Ho.
  pose proof (top_greatest q b (or_introl Hq) Hp Tb o Ho) as H.
  unfold allBuys in Hq. rewrite Forall_forall in Hq.
  unfold allPriced in Hp. rewrite Forall_forall in Hp.
  pose proof (top_In _ _ Tb) as Hb.
  apply order_lt_buy in H; [|now apply Hq|now apply Hp|now apply Hp].
  destruct H as [H|[H T]]; split.
  - apply dle_true_iff. now left.
  - intros E. apply deq_not_dlt in E. congruence.
  - apply dle_true_iff. right. now rewrite deq_sym.
  - intros _. exact T.
Qed.

Lemma top_ask_best (q : PriorityQueue) (a o : Order) :
  allSells q -> allPriced q -> top q = Some a -> In o q ->
  dle (limitPrice a) (limitPrice o) = true /\
  (deq (limitPrice o) (limitPrice a) = true -> timestamp a <= timestamp o).
Proof.
  intros Hq Hp Ta Ho.
  pose proof (top_greatest q a (or_intror Hq) Hp Ta o Ho) as H.
  unfold allSells in Hq. rewrite Forall_forall in Hq.
  unfold allPriced in Hp. rewrite Forall_forall in Hp.
  pose proof (top_In _ _ Ta) as Hb.
  apply order_lt_sell in H; [|now apply Hq|now apply Hp|now apply Hp].
  destruct H as [H|[H T]]; split.
  - apply dle_true_iff. now left.
  - intros E. rewrite deq_sym in E. apply deq_not_dlt in E. congruence.
  - apply dle_true_iff. now right.
  - intros _. exact T.
Qed.

Lemma top_exists (q : PriorityQueue) :
  q <> [] -> exists m, top q = Some m /\ In m q.
Proof.
  intros Hq. destruct (top q) as [m|] eqn:T.
  - exists m. split; [reflexivity|now apply top_In].
  - apply top_None in T. contradiction.
Qed.

(** C6 fails on the program: after [O1 B 10 nan] and [O2 B 5 50] the best
    buy is [O1], whose price NaN is no highest price: the price 50 of [O2],
    which rests in the same queue, is not at most it. *)
Lemma nan_bid_ranks_first :
  parseLines sampleRuntime nanBidLines 0
  = Some [ mkOrder "O1" "B" 10 NaN false 1;
           mkOrder "O2" "B" 5 (Fin (50#1)) false 2 ] /\
  let st := finalBook (Fin (100#1))
              [ mkOrder "O1" "B" 10 NaN false 1;
                mkOrder "O2" "B" 5 (Fin (50#1)) false 2 ] in
  wellSided st /\
  top (buyOrders st) = Some (mkOrder "O1" "B" 10 NaN false 1) /\
  ~ (forall b o, top (buyOrders st) = Some b -> In o (buyOrders st) ->
       dle (limitPrice o) (limitPrice b) = true).
Proof.
  split; [reflexivity|]. cbv zeta.
  split; [split; repeat constructor|]. split; [reflexivity|].
  intros H.
  specialize (H (mkOrder "O1" "B" 10 NaN false 1)
                (mkOrder "O2" "B" 5 (Fin (50#1)) false 2) eq_refl).
  assert (Hin : In (mkOrder "O2" "B" 5 (Fin (50#1)) false 2)
                  (buyOrders (finalBook (Fin (100#1))
                     [ mkOrder "O1" "B" 10 NaN false 1;
                       mkOrder "O2" "B" 5 (Fin (50#1)) false 2 ])))
    by (right; left; reflexivity).
  specialize (H Hin). discriminate.
Qed.

(** C6, as the program has it.  In a book whose orders are on their own side
    and in which no resting order has NaN for its price, a queue that is not
    empty has a best order; the best buy has the highest [limitPrice] of the
    buy queue and the best sell the lowest of the sell queue, and among the
    orders at the price of the best one the best one has the lowest
    [timestamp].  [parseOrder] gives the market orders it makes the
    [limitPrice] 0, so a market buy it made is not the best buy of a queue in
    which a limit buy of positive price rests. *)
Theorem price_time_priority (st : OrderBook) :
  wellSided st -> allPriced (buyOrders st) -> allPriced (sellOrders st) ->
  (buyOrders st <> [] ->
   exists b, top (buyOrders st) = Some b /\ In b (buyOrders st) /\
     forall o, In o (buyOrders st) ->
       dle (limitPrice o) (limitPrice b) = true /\
       (deq (limitPrice o) (limitPrice b) = true -> timestamp b <= timestamp o)) /\
  (sellOrders st <> [] ->
   exists a, top (sellOrders st) = Some a /\ In a (sellOrders st) /\
     forall o, In o (sellOrders st) ->
       dle (limitPrice a) (limitPrice o) = true /\
       (deq (limitPrice o) (limitPrice a) = true -> timestamp a <= timestamp o)) /\
  (forall rt line ts m,
     parseOrder rt line ts = Some m -> isMarketOrder m = true ->
     limitPrice m = Fin 0) /\
  (forall rt line ts m l,
     parseOrder rt line ts = Some m -> isMarketOrder m = true ->
     In l (buyOrders st) -> isMarketOrder l = false ->
     dlt (Fin 0) (limitPrice l) = true ->
     top (buyOrders st) <> Some m).
Proof.
  intros [Hb Hs] Pb Ps.
  assert (Hmarket : forall rt line ts m,
            parseOrder rt line ts = Some m -> isMarketOrder m = true ->
            limitPrice m = Fin 0).
  { intros rt line ts m E M. unfold parseOrder in E.
    destruct (extractString _ _) as [i s1].
    destruct (extractChar _ _) as [ty s2].
    destruct (extractInt _ _) as [n s3].
    destruct (extractString _ s3) as [tok s4].
    destruct (negb (failbit s4)).
    - destruct (stod rt tok); inversion E; subst; discriminate.
    - inversion E; subst. reflexivity. }
  split; [|split; [|split]].
  - intros Hne. destruct (top_exists _ Hne) as (b & Tb & Hin).
    exists b. split; [assumption|]. split; [assumption|].
    intros o Ho. now apply (top_bid_best (buyOrders st)).
  - intros Hne. destruct (top_exists _ Hne) as (a & Ta & Hin).
    exists a. split; [assumption|]. split; [assumption|].
    intros o Ho. now apply (top_ask_best (sellOrders st)).
  - exact Hmarket.
  - intros rt line ts m l E M Hl _ Hpos Tm.
    destruct (top_bid_best _ _ _ Hb Pb Tm Hl) as [Hle _].
    rewrite (Hmarket _ _ _ _ E M) in Hle.
    apply dle_true_iff in Hle as [Hle|Hle].
    + apply dlt_asym in Hle. congruence.
    + rewrite deq_sym in Hle. apply deq_not_dlt in Hle. congruence.
Qed.

Lemma price_time_priority_witness :
  (wellSided deepBook /\ allPriced (buyOrders deepBook) /\
   allPriced (sellOrders deepBook)) /\
  top (buyOrders deepBook) = Some (mkOrder "O3" "B" 4 (Fin (98#1)) false 3) /\
  top (sellOrders deepBook) = Some (mkOrder "O5" "S" 7 (Fin (99#1)) false 5) /\
  exists b, top (buyOrders deepBook) = Some b /\ In b (buyOrders deepBook) /\
    forall o, In o (buyOrders deepBook) ->
      dle (limitPrice o) (limitPrice b) = true /\
      (deq (limitPrice o) (limitPrice b) = true -> timestamp b <= timestamp o).
Proof.
  assert (W : wellSided deepBook) by (split; repeat constructor).
  assert (Pb : allPriced (buyOrders deepBook)) by (repeat constructor).
  assert (Ps : allPriced (sellOrders deepBook)) by (repeat constructor).
  split; [split; [exact W|split; assumption]|].
  split; [reflexivity|]. split; [reflexivity|].
  apply (price_time_priority deepBook W Pb Ps). discriminate.
Defined.

(** C9.  In a sell queue where the market orders carry [limitPrice] 0 and
    every limit order has a positive [limitPrice], a resting market sell is
    above every limit sell for [operator<], and the best sell is a market
    order: the one with the lowest [timestamp] among the market sells. *)
Theorem market_sell_ranked_first (q : PriorityQueue) (m : Order) :
  allSells q ->
  In m q -> isMarketOrder m = true ->
  (forall o, In o q -> isMarketOrder o = true ->
             deq (limitPrice o) (Fin 0) = true) ->
  (forall o, In o q -> isMarketOrder o = false ->
             dlt (Fin 0) (limitPrice o) = true) ->
  (forall l, In l q -> isMarketOrder l = false ->
     order_lt l m = true /\ order_lt m l = false) /\
  exists t, top q = Some t /\ isMarketOrder t = true /\
    forall m', In m' q -> isMarketOrder m' = true -> timestamp t <= timestamp m'.
Proof.
  intros Hq Hm Mm Hzero Hpos.
  pose proof Hq as Hq'. unfold allSells in Hq'. rewrite Forall_forall in Hq'.
  pose proof (Hzero m Hm Mm) as Zm.
  assert (Hp : allPriced q).
  { unfold allPriced. rewrite Forall_forall. intros o Ho.
    destruct (isMarketOrder o) eqn:E.
    - now apply (deq_not_NaN _ _ (Hzero o Ho E)).
    - now apply (dlt_not_NaN _ _ (Hpos o Ho E)). }
  pose proof Hp as Hp'. unfold allPriced in Hp'. rewrite Forall_forall in Hp'.
  split.
  - intros l Hl Ml. pose proof (Hpos l Hl Ml) as Pl.
    assert (Hlt : dlt (limitPrice m) (limitPrice l) = true)
      by (eapply deq_dlt_trans; eassumption).
    split.
    + destruct (order_lt l m) eqn:E; [reflexivity|].
      apply order_lt_sell in E; [|now apply Hq'|now apply Hp'|now apply Hp'].
      destruct E as [E|[E _]].
      * apply dlt_asym in E. congruence.
      * rewrite deq_sym in E. apply deq_not_dlt in E. congruence.
    + apply order_lt_sell; [now apply Hq'|now apply Hp'|now apply Hp'|].
      now left.
  - destruct (top q) as [t|] eqn:Tt;
      [|apply top_None in Tt; subst; contradiction].
    exists t. split; [reflexivity|].
    pose proof (top_In _ _ Tt) as Ht.
    assert (Mt : isMarketOrder t = true).
    { destruct (isMarketOrder t) eqn:E; [reflexivity|].
      pose proof (Hpos t Ht E) as Pt.
      destruct (top_ask_best q t m Hq Hp Tt Hm) as [Hle _].
      assert (Hlt : dlt (limitPrice m) (limitPrice t) = true)
        by (eapply deq_dlt_trans; eassumption).
      apply dle_true_iff in Hle as [Hle|Hle].
      - apply dlt_asym in Hle. congruence.
      - rewrite deq_sym in Hle. apply deq_not_dlt in Hle. congruence. }
    split; [assumption|].
    intros m' Hm' Mm'.
    destruct (top_ask_best q t m' Hq Hp Tt Hm') as [_ Hts].
    apply Hts. eapply deq_trans; [exact (Hzero m' Hm' Mm')|].
    rewrite deq_sym. exact (Hzero t Ht Mt).
Qed.

Lemma market_sell_ranked_first_witness :
  (allSells mixedSells /\ In marketSell mixedSells /\
   isMarketOrder marketSell = true) /\
  exists t, top mixedSells = Some t /\ isMarketOrder t = true /\
    forall m', In m' mixedSells -> isMarketOrder m' = true ->
               timestamp t <= timestamp m'.
Proof.
  assert (Hq : allSells mixedSells) by (repeat constructor).
  assert (Hm : In marketSell mixedSells) by (right; left; reflexivity).
  split; [repeat split; assumption|].
  apply (market_sell_ranked_first mixedSells marketSell Hq Hm eq_refl).
  - intros o [<-|[<-|[<-|[]]]]; simpl; intros E;
      [discriminate|reflexivity|discriminate].
  - intros o [<-|[<-|[<-|[]]]]; simpl; intros E;
      [reflexivity|discriminate|reflexivity].
Defined.

(** ** Orders are not validated *)

(** C3 fails on the program: an order of quantity 0 and negative price is
    accepted by [submit] and rests in [buyOrders] afterwards. *)
Lemma voidOrder_is_inserted :
  quantity voidOrder <= 0 /\ dlt (limitPrice voidOrder) (Fin 0) = true /\
  buyOrders (fst (submit voidOrder (newOrderBook (Fin (100#1))) [])) = [voidOrder] /\
  buyOrders (fst (submit voidOrder (newOrderBook (Fin (100#1))) []))
    <> buyOrders (newOrderBook (Fin (100#1))).
Proof.
  split; [vm_compute; discriminate|].
  split; [reflexivity|].
  split; [reflexivity|].
  vm_compute. discriminate.
Qed.

Lemma addOrder_Permutation (order : Order) (st : OrderBook) :
  Permutation (resting (addOrder order st)) (order :: resting st).
Proof.
  unfold resting, addOrder, push. destruct (isBuy order); simpl.
  - rewrite <- app_assoc. simpl. symmetry. apply Permutation_middle.
  - rewrite app_assoc. symmetry. apply Permutation_cons_append.
Qed.

(** C3, as the program has it.  [addOrder] checks nothing: whatever its
    [quantity] and [limitPrice], the order is put in the queue of its side,
    [buyOrders] when its [type] is ['B'] and [sellOrders] otherwise; the other
    queue and [lastTradedPrice] are as before. *)
Theorem addOrder_inserts_every_order (order : Order) (st : OrderBook) :
  In order (if isBuy order then buyOrders (addOrder order st)
            else sellOrders (addOrder order st)) /\
  Permutation (buyOrders (addOrder order st) ++ sellOrders (addOrder order st))
              (order :: buyOrders st ++ sellOrders st) /\
  (if isBuy order then sellOrders (addOrder order st) = sellOrders st
   else buyOrders (addOrder order st) = buyOrders st) /\
  lastTradedPrice (addOrder order st) = lastTradedPrice st.
Proof.
  split; [|split; [apply (addOrder_Permutation order st)|]].
  - unfold addOrder, push. destruct (isBuy order); simpl;
      apply in_or_app; right; now left.
  - unfold addOrder. destruct (isBuy order); simpl; split; reflexivity.
Qed.

(** ** The report of the unexecuted orders *)

Lemma drainLoop_Permutation (fuel : nat) (q : PriorityQueue) :
  (List.length q <= fuel)%nat -> Permutation (drainLoop fuel q) q.
Proof.
  revert q. induction fuel as [|fuel IH]; intros q Hlen.
  - destruct q; [constructor|simpl in Hlen; lia].
  - simpl. destruct q as [|x q']; [constructor|]. simpl empty. cbv iota.
    destruct (top (x :: q')) as [m|] eqn:Tm;
      [|apply top_None in Tm; discriminate].
    pose proof (top_pop_Permutation _ _ Tm) as P.
    rewrite P at 2. constructor. apply IH.
    apply Permutation_length in P. simpl in *. lia.
Qed.

Lemma drain_Permutation (q : PriorityQueue) : Permutation (drain q) q.
Proof. apply drainLoop_Permutation. lia. Qed.

Lemma insertByTimestamp_Permutation (o : Order) (l : list Order) :
  Permutation (insertByTimestamp o l) (o :: l).
Proof.
  induction l as [|x l IH]; simpl; [reflexivity|].
  destruct (timestamp o <? timestamp x); [reflexivity|].
  rewrite IH. apply perm_swap.
Qed.

Lemma sortByTimestamp_Permutation (l : list Order) :
  Permutation (sortByTimestamp l) l.
Proof.
  induction l as [|x l IH]; simpl; [constructor|].
  rewrite insertByTimestamp_Permutation. now constructor.
Qed.

Lemma insertByTimestamp_sorted (o : Order) (l : list Order) :
  StronglySorted (fun a b => timestamp a <= timestamp b) l ->
  StronglySorted (fun a b => timestamp a <= timestamp b) (insertByTimestamp o l).
Proof.
  induction 1 as [|x l Hs IH Hx]; simpl.
  - repeat constructor.
  - destruct (timestamp o <? timestamp x) eqn:E.
    + apply Z.ltb_lt in E. constructor; [now constructor|].
      constructor; [lia|].
      rewrite Forall_forall in *. intros y Hy. specialize (Hx y Hy). lia.
    + apply Z.ltb_ge in E. constructor; [assumption|].
      rewrite Forall_forall in *. intros y Hy.
      apply (Permutation_in _ (insertByTimestamp_Permutation o l)) in Hy.
      destruct Hy as [<-|Hy]; [assumption|now apply Hx].
Qed.

Lemma sortByTimestamp_sorted (l : list Order) :
  StronglySorted (fun a b => timestamp a <= timestamp b) (sortByTimestamp l).
Proof.
  induction l as [|x l IH]; simpl; [constructor|].
  now apply insertByTimestamp_sorted.
Qed.

(** The orders of the report are the orders resting in the book. *)
Lemma report_Permutation (st : OrderBook) :
  Permutation (sortByTimestamp (drain (buyOrders st) ++ drain (sellOrders st)))
              (resting st).
Proof.
  unfold resting.
  rewrite sortByTimestamp_Permutation, !drain_Permutation. reflexivity.
Qed.

(** C7.  What [writeUnexecutedOrders] appends to the output is one
    [Unexecuted] record, with the [id] and the remaining [quantity] of the
    order, for each order of a list [l] that holds exactly the orders resting
    in the two queues and is in non-decreasing order of [timestamp]; the
    output of [main] ends with this report for the book left when the input
    is read. *)
Theorem unexecuted_report (st : OrderBook) (output : list Line) :
  (exists l,
     Permutation l (buyOrders st ++ sellOrders st) /\
     StronglySorted (fun a b => timestamp a <= timestamp b) l /\
     snd (writeUnexecutedOrders st output)
     = output ++ map (fun o => Unexecuted (id o) (quantity o)) l) /\
  (forall rt initialPrice lines,
     processLines rt lines 0 (newOrderBook initialPrice) [] = Some (st, output) ->
     main rt initialPrice lines = Some (snd (writeUnexecutedOrders st output))).
Proof.
  split.
  - exists (sortByTimestamp (drain (buyOrders st) ++ drain (sellOrders st))).
    split; [apply report_Permutation|]. split; [apply sortByTimestamp_sorted|].
    reflexivity.
  - intros rt initialPrice lines E. unfold main. now rewrite E.
Qed.

(** C10.  [writeUnexecutedOrders] hands the book back as it received it:
    both queues and [lastTradedPrice] are unchanged, and the output it
    received is a prefix of the output it returns. *)
Theorem writeUnexecutedOrders_frame (st : OrderBook) (output : list Line) :
  buyOrders (fst (writeUnexecutedOrders st output)) = buyOrders st /\
  sellOrders (fst (writeUnexecutedOrders st output)) = sellOrders st /\
  lastTradedPrice (fst (writeUnexecutedOrders st output)) = lastTradedPrice st /\
  exists report, snd (writeUnexecutedOrders st output) = output ++ report.
Proof.
  repeat split. eexists. reflexivity.
Qed.

(** ** The orders of a run *)

Lemma extractInt_range (old : Z) (s : istringstream) :
  INT_MIN <= old <= INT_MAX -> INT_MIN <= fst (extractInt old s) <= INT_MAX.
Proof.
  intros Hold. unfold extractInt.
  destruct (sentry s) as [[|] s1]; [|exact Hold].
  destruct (match buffer s1 with
            | c :: r =>
                if Ascii.eqb c "-" then (true, r)
                else if Ascii.eqb c "+" then (false, r)
                else (false, c :: r)
            | [] => (false, [])
            end) as [negative afterSign].
  destruct (span isDigit afterSign) as [digits rest].
  destruct digits as [|d digits]; [simpl; unfold INT_MIN, INT_MAX; lia|].
  set (v := if negative then _ else _).
  destruct (v >? INT_MAX) eqn:E1; [simpl; unfold INT_MIN, INT_MAX; lia|].
  destruct (v <? INT_MIN) eqn:E2; [simpl; unfold INT_MIN, INT_MAX; lia|].
  simpl. rewrite Z.gtb_ltb in E1. apply Z.ltb_ge in E1, E2. lia.
Qed.

(** What [parseOrder] stores as quantity is an [int], and the timestamp it
    stores is the one it is given. *)
Lemma parseOrder_fields (rt : Runtime) (line : string) (ts : Z) (o : Order) :
  parseOrder rt line ts = Some o ->
  timestamp o = ts /\ INT_MIN <= quantity o <= INT_MAX.
Proof.
  unfold parseOrder. intros E.
  destruct (extractString _ _) as [i s1].
  destruct (extractChar _ _) as [ty s2].
  pose proof (extractInt_range (wrapInt (indeterminateQuantity rt ts)) s2
                (wrapInt_range _)) as Hr.
  destruct (extractInt _ _) as [n s3]. simpl in Hr.
  destruct (extractString _ s3) as [tok s4].
  destruct (negb (failbit s4)).
  - destruct (stod rt tok); inversion E; subst; simpl; auto.
  - inversion E; subst; simpl; auto.
Qed.

Lemma parseLines_nth (rt : Runtime) (lines : list string) :
  forall (ts : Z) (orders : list Order),
  parseLines rt lines ts = Some orders ->
  List.length orders = List.length lines /\
  forall n o, nth_error orders n = Some o ->
    exists line, nth_error lines n = Some line /\
                 parseOrder rt line (ts + Z.of_nat n + 1) = Some o.
Proof.
  induction lines as [|line rest IH]; intros ts orders E; simpl in E.
  - inversion E; subst. split; [reflexivity|]. intros [|n] o H; discriminate.
  - destruct (parseOrder rt line (ts + 1)) as [order|] eqn:Ep; [|discriminate].
    destruct (parseLines rt rest (ts + 1)) as [orders'|] eqn:El; [|discriminate].
    inversion E; subst. destruct (IH _ _ El) as [Hlen Hnth].
    split; [simpl; now rewrite Hlen|].
    intros [|n] o H; simpl in H.
    + inversion H; subst. exists line. split; [reflexivity|].
      now rewrite Z.add_0_r.
    + destruct (Hnth n o H) as (l & Hl & Hp). exists l. split; [exact Hl|].
      replace (ts + Z.of_nat (S n) + 1) with (ts + 1 + Z.of_nat n + 1) by lia.
      exact Hp.
Qed.

Lemma parseLines_In (rt : Runtime) (lines : list string) (orders : list Order)
  (o : Order) :
  parseLines rt lines 0 = Some orders -> In o orders ->
  exists n line,
    nth_error orders n = Some o /\ nth_error lines n = Some line /\
    parseOrder rt line (Z.of_nat n + 1) = Some o /\
    timestamp o = Z.of_nat n + 1 /\ INT_MIN <= quantity o <= INT_MAX.
Proof.
  intros E Ho. apply In_nth_error in Ho as [n Hn].
  destruct (parseLines_nth _ _ _ _ E) as [_ H].
  destruct (H n o Hn) as (line & Hl & Hp). simpl in Hp.
  exists n, line. repeat split; try assumption;
    apply (parseOrder_fields _ _ _ _ Hp).
Qed.

(** The timestamps of the parsed orders are 1, 2, 3, ... *)
Lemma parseLines_timestamps (rt : Runtime) (lines : list string)
  (orders : list Order) (n : nat) (o : Order) :
  parseLines rt lines 0 = Some orders -> nth_error orders n = Some o ->
  timestamp o = Z.of_nat (S n).
Proof.
  intros E Hn. destruct (parseLines_nth _ _ _ _ E) as [_ H].
  destruct (H n o Hn) as (line & _ & Hp).
  destruct (parseOrder_fields _ _ _ _ Hp) as [-> _]. lia.
Qed.

(** The loop of [main] parses a line and submits its order in turn; a run
    that reaches its end has submitted the orders of its lines. *)
Lemma processLines_parseLines (rt : Runtime) (lines : list string) :
  forall (ts : Z) (st : OrderBook) (output : list Line),
  processLines rt lines ts st output
  = match parseLines rt lines ts with
    | Some orders => Some (submitAll orders st output)
    | None => None
    end.
Proof.
  induction lines as [|line rest IH]; intros ts st output; simpl; [reflexivity|].
  destruct (parseOrder rt line (ts + 1)) as [order|]; [|reflexivity].
  destruct (submit order st output) as [st' output'] eqn:Es.
  rewrite IH. destruct (parseLines rt rest (ts + 1)); [|reflexivity].
  simpl. now rewrite Es.
Qed.

Lemma main_parsed (rt : Runtime) (initialPrice : double) (lines : list string)
  (orders : list Order) :
  parseLines rt lines 0 = Some orders ->
  main rt initialPrice lines
  = Some (snd (writeUnexecutedOrders (finalBook initialPrice orders)
                 (tradeOutput initialPrice orders))).
Proof.
  intros E. unfold main, finalBook, tradeOutput.
  rewrite processLines_parseLines, E.
  now destruct (submitAll orders (newOrderBook initialPrice) []).
Qed.

(** ** Invariants of a run of [main] *)

Section RunInvariant.
Variable orders : list Order.

(** [P n st output]: a property of the book and the output when [n] orders
    have been submitted. *)
Variable P : nat -> OrderBook -> list Line -> Prop.

Hypothesis P_addOrder : forall n order st output,
  nth_error orders n = Some order -> P n st output ->
  P (S n) (addOrder order st) output.

Hypothesis P_matchStep : forall n st st' t output,
  P n st output -> matchStep st = Some (st', t) ->
  P n st' (output ++ tradeLines t).

Lemma sweep_invariant (n : nat) (st st' : OrderBook) (ts : list Trade) :
  sweep st ts st' -> forall output,
  P n st output -> P n st' (output ++ flat_map tradeLines ts).
Proof.
  induction 1 as [st E|st st1 st2 t ts E _ IH]; intros output HP.
  - simpl. now rewrite app_nil_r.
  - change (flat_map tradeLines (t :: ts))
      with (tradeLines t ++ flat_map tradeLines ts).
    rewrite app_assoc. apply IH. eapply P_matchStep; eassumption.
Qed.

Lemma submitAll_invariant_from (rest : list Order) :
  forall (done : list Order) (st : OrderBook) (output : list Line),
  orders = done ++ rest ->
  P (List.length done) st output ->
  P (List.length orders)
    (fst (submitAll rest st output)) (snd (submitAll rest st output)).
Proof.
  induction rest as [|order rest IH]; intros done st output E HP.
  - simpl. rewrite E, app_nil_r. exact HP.
  - simpl. unfold submit.
    destruct (matchOrders_sweep (addOrder order st) output)
      as (ts & st1 & Hs & _ & ->).
    apply (IH (done ++ [order])); [rewrite <- app_assoc; exact E|].
    eapply sweep_invariant; [eassumption|].
    replace (List.length (done ++ [order])) with (S (List.length done))
      by (rewrite length_app; simpl; lia).
    apply P_addOrder; [|assumption].
    rewrite E, nth_error_app2, Nat.sub_diag by lia. reflexivity.
Qed.

Lemma run_invariant (initialPrice : double) :
  P O (newOrderBook initialPrice) [] ->
  P (List.length orders) (finalBook initialPrice orders)
    (tradeOutput initialPrice orders).
Proof.
  intros H0. unfold finalBook, tradeOutput.
  exact (submitAll_invariant_from orders [] _ _ eq_refl H0).
Qed.
End RunInvariant.

Lemma firstn_S_nth {A : Type} (l : list A) (n : nat) (a : A) :
  nth_error l n = Some a -> firstn (S n) l = firstn n l ++ [a].
Proof.
  revert n. induction l as [|x l IH]; intros [|n] H; simpl in *;
    try discriminate.
  - now inversion H.
  - now rewrite (IH n H).
Qed.

(** ** Conservation of shares *)

Section Sums.
Context {A : Type} (key : A -> string).

Lemma countFor_app (x : string) (l1 l2 : list A) :
  countFor key x (l1 ++ l2) = (countFor key x l1 + countFor key x l2)%nat.
Proof. unfold countFor. now rewrite filter_app, length_app. Qed.

Lemma countFor_Permutation (x : string) (l1 l2 : list A) :
  Permutation l1 l2 -> countFor key x l1 = countFor key x l2.
Proof.
  unfold countFor. induction 1; simpl.
  - reflexivity.
  - destruct (String.eqb (key x0) x); simpl; lia.
  - destruct (String.eqb (key x0) x), (String.eqb (key y) x); simpl; lia.
  - lia.
Qed.

Lemma countFor_not_In (x : string) (l : list A) :
  ~ In x (map key l) -> countFor key x l = O.
Proof.
  unfold countFor. induction l as [|a l IH]; simpl; [reflexivity|].
  intros H. destruct (String.eqb (key a) x) eqn:E.
  - apply String.eqb_eq in E. tauto.
  - apply IH. tauto.
Qed.

Lemma countFor_NoDup (x : string) (l : list A) :
  NoDup (map key l) -> (countFor key x l <= 1)%nat.
Proof.
  induction l as [|a l IH]; simpl; intros H; [unfold countFor; simpl; lia|].
  inversion H as [|k ks Hnot Hnd]; subst.
  specialize (IH Hnd). unfold countFor in *. simpl.
  destruct (String.eqb (key a) x) eqn:E; simpl; [|assumption].
  apply String.eqb_eq in E. subst x.
  pose proof (countFor_not_In _ _ Hnot) as Z0. unfold countFor in Z0. lia.
Qed.

Section Weights.
Context (weight : A -> Z).

Lemma sumFor_app (x : string) (l1 l2 : list A) :
  sumFor key weight x (l1 ++ l2) = sumFor key weight x l1 + sumFor key weight x l2.
Proof.
  induction l1 as [|a l1 IH]; simpl; [reflexivity|].
  unfold sumFor in *. rewrite IH. lia.
Qed.

Lemma sumFor_Permutation (x : string) (l1 l2 : list A) :
  Permutation l1 l2 -> sumFor key weight x l1 = sumFor key weight x l2.
Proof.
  unfold sumFor. induction 1; simpl; lia.
Qed.

Lemma countFor_zero_sumFor (x : string) (l : list A) :
  countFor key x l = O -> sumFor key weight x l = 0.
Proof.
  unfold countFor, sumFor. induction l as [|a l IH]; simpl; [reflexivity|].
  destruct (String.eqb (key a) x); simpl; [discriminate|]. intros H.
  rewrite IH; [reflexivity|assumption].
Qed.

Lemma sumFor_NoDup (a : A) (l : list A) :
  NoDup (map key l) -> In a l -> sumFor key weight (key a) l = weight a.
Proof.
  induction l as [|b l IH]; simpl; intros H Ha; [contradiction|].
  inversion H as [|k ks Hnot Hnd]; subst.
  change (sumFor key weight (key a) (b :: l))
    with ((if String.eqb (key b) (key a) then weight b else 0)
          + sumFor key weight (key a) l).
  destruct Ha as [->|Ha].
  - rewrite String.eqb_refl.
    rewrite countFor_zero_sumFor; [lia|]. now apply countFor_not_In.
  - destruct (String.eqb (key b) (key a)) eqn:E.
    + apply String.eqb_eq in E. exfalso. apply Hnot. rewrite E.
      now apply in_map.
    + rewrite IH; [lia|assumption|assumption].
Qed.
End Weights.
End Sums.

Lemma tradedFor_app (x : string) (l1 l2 : list Line) :
  tradedFor x (l1 ++ l2) = tradedFor x l1 + tradedFor x l2.
Proof.
  unfold tradedFor. induction l1 as [|l l1 IH]; simpl; [reflexivity|].
  rewrite IH. lia.
Qed.


(** Pushing back what is left of a partly filled order, or dropping the
    order when nothing is left, when the subtraction stays in the range of
    [int]. *)
Lemma requeue_sum (x : string) (o : Order) (n : Z) (q : PriorityQueue) :
  n <= quantity o -> INT_MIN <= quantity o - n <= INT_MAX ->
  sumFor id quantity x
    (if quantity o >? n
     then push (setQuantity o (wrapInt (quantity o - n))) q else q)
  = sumFor id quantity x q + (if String.eqb (id o) x then quantity o - n else 0).
Proof.
  intros Hle Hr. rewrite (wrapInt_small _ Hr). destruct (quantity o >? n) eqn:E.
  - unfold push. rewrite sumFor_app. unfold sumFor at 2. simpl. lia.
  - rewrite Z.gtb_ltb in E. apply Z.ltb_ge in E.
    replace (quantity o - n) with 0 by lia.
    destruct (String.eqb (id o) x); lia.
Qed.

Lemma requeue_count (x : string) (o : Order) (n : Z) (q : PriorityQueue) :
  (countFor id x
     (if quantity o >? n
      then push (setQuantity o (wrapInt (quantity o - n))) q else q)
   <= countFor id x (o :: q))%nat.
Proof.
  unfold countFor. simpl.
  destruct (quantity o >? n); unfold push.
  - rewrite filter_app, length_app. simpl.
    destruct (String.eqb (id o) x); simpl; lia.
  - destruct (String.eqb (id o) x); simpl; lia.
Qed.

(** Quantities between 0 and [INT_MAX] stay there: the subtraction of the
    sweep does not overflow. *)
Lemma matchStep_no_overflow (st st' : OrderBook) (t : Trade) :
  Forall (fun o => 0 <= quantity o <= INT_MAX) (resting st) ->
  matchStep st = Some (st', t) ->
  Forall (fun o => 0 <= quantity o <= INT_MAX) (resting st').
Proof.
  intros Hq H. apply matchStep_Some_inv in H
    as (buy & sell & Tb & Ts & _ & -> & ->).
  unfold resting in *. apply Forall_app in Hq as [Hb Hs].
  rewrite (top_pop_Permutation _ _ Tb) in Hb.
  rewrite (top_pop_Permutation _ _ Ts) in Hs.
  apply Forall_cons_iff in Hb as [Hbuy Hb].
  apply Forall_cons_iff in Hs as [Hsell Hs].
  simpl. apply Forall_app. split.
  - destruct (quantity buy >? _) eqn:E; [|assumption].
    unfold push. apply Forall_app. split; [assumption|].
    constructor; [|constructor]. simpl.
    rewrite wrapInt_small; unfold INT_MAX, INT_MIN in *; lia.
  - destruct (quantity sell >? _) eqn:E; [|assumption].
    unfold push. apply Forall_app. split; [assumption|].
    constructor; [|constructor]. simpl.
    rewrite wrapInt_small; unfold INT_MAX, INT_MIN in *; lia.
Qed.

(** An iteration of the sweep that does not overflow moves shares from the
    book to the trade records, id by id, and adds no order to the book. *)
Lemma matchStep_conservation (x : string) (st st' : OrderBook) (t : Trade) :
  Forall (fun o => 0 <= quantity o <= INT_MAX) (resting st) ->
  matchStep st = Some (st', t) ->
  restingFor x st = restingFor x st' + tradedFor x (tradeLines t) /\
  (countFor id x (resting st') <= countFor id x (resting st))%nat.
Proof.
  intros Hq H. apply matchStep_Some_inv in H
    as (buy & sell & Tb & Ts & _ & -> & ->).
  pose proof (top_pop_Permutation _ _ Tb) as Pb.
  pose proof (top_pop_Permutation _ _ Ts) as Ps.
  unfold resting in Hq. apply Forall_app in Hq as [Hb Hs].
  rewrite Pb in Hb. rewrite Ps in Hs.
  apply Forall_inv in Hb. apply Forall_inv in Hs.
  unfold restingFor, resting. simpl buyOrders. simpl sellOrders.
  rewrite !sumFor_app, !countFor_app.
  rewrite (sumFor_Permutation id quantity x _ _ Pb).
  rewrite (sumFor_Permutation id quantity x _ _ Ps).
  rewrite (countFor_Permutation id x _ _ Pb).
  rewrite (countFor_Permutation id x _ _ Ps).
  split.
  - rewrite !requeue_sum by (unfold INT_MIN, INT_MAX in *; lia).
    unfold tradedFor, tradeLines, sumFor. simpl.
    destruct (String.eqb (id buy) x), (String.eqb (id sell) x); lia.
  - apply Nat.add_le_mono; apply requeue_count.
Qed.

Lemma isTradeLine_tradeLines (t : Trade) : Forall isTradeLine (tradeLines t).
Proof. repeat constructor. Qed.

(** A run on orders of quantities between 0 and [INT_MAX]: id by id, the
    shares in the book and in the trade records are the shares submitted. *)
Lemma run_conservation (x : string) (initialPrice : double) (orders : list Order) :
  Forall (fun o => 0 <= quantity o <= INT_MAX) orders ->
  Forall (fun o => 0 <= quantity o <= INT_MAX)
    (resting (finalBook initialPrice orders)) /\
  restingFor x (finalBook initialPrice orders)
  + tradedFor x (tradeOutput initialPrice orders)
  = submittedFor x orders /\
  (countFor id x (resting (finalBook initialPrice orders))
   <= countFor id x orders)%nat /\
  Forall isTradeLine (tradeOutput initialPrice orders).
Proof.
  intros Hr.
  assert (H : Forall (fun o => 0 <= quantity o <= INT_MAX)
                (resting (finalBook initialPrice orders)) /\
              restingFor x (finalBook initialPrice orders)
              + tradedFor x (tradeOutput initialPrice orders)
              = submittedFor x (firstn (List.length orders) orders) /\
              (countFor id x (resting (finalBook initialPrice orders))
               <= countFor id x (firstn (List.length orders) orders))%nat /\
              Forall isTradeLine (tradeOutput initialPrice orders));
    [|now rewrite firstn_all in H].
  apply (run_invariant orders
    (fun n st output =>
       Forall (fun o => 0 <= quantity o <= INT_MAX) (resting st) /\
       restingFor x st + tradedFor x output = submittedFor x (firstn n orders) /\
       (countFor id x (resting st) <= countFor id x (firstn n orders))%nat /\
       Forall isTradeLine output)).
  - intros n order st output Hn (Hq & He & Hc & Ht).
    pose proof (addOrder_Permutation order st) as Pa.
    rewrite (firstn_S_nth _ _ _ Hn).
    unfold restingFor, submittedFor in *.
    rewrite (sumFor_Permutation id quantity x _ _ Pa).
    rewrite (countFor_Permutation id x _ _ Pa).
    rewrite sumFor_app, countFor_app.
    change (sumFor id quantity x (order :: resting st))
      with ((if String.eqb (id order) x then quantity order else 0)
            + sumFor id quantity x (resting st)).
    change (countFor id x (order :: resting st))
      with (countFor id x ([order] ++ resting st)).
    rewrite countFor_app.
    split; [|split; [|split; [|assumption]]].
    + rewrite Pa. constructor; [|assumption].
      rewrite Forall_forall in Hr. apply Hr. eapply nth_error_In; eassumption.
    + assert (E1 : sumFor id quantity x [order]
                   = if String.eqb (id order) x then quantity order else 0)
        by (unfold sumFor; simpl; lia).
      rewrite E1. lia.
    + lia.
  - intros n st st' t output (Hq & He & Hc & Ht) E.
    destruct (matchStep_conservation x _ _ _ Hq E) as [He' Hc'].
    split; [eapply matchStep_no_overflow; eassumption|].
    rewrite tradedFor_app.
    split; [lia|]. split; [lia|].
    apply Forall_app. split; [assumption|apply isTradeLine_tradeLines].
  - split; [constructor|]. split; [reflexivity|]. split; [apply Nat.le_refl|constructor].
Qed.

Lemma unexecutedFor_after_trades (x : string) (output report : list Line) :
  Forall isTradeLine output ->
  unexecutedFor x (output ++ report) = unexecutedFor x report.
Proof.
  induction 1 as [|l output Hl _ IH]; simpl; [reflexivity|].
  destruct l; simpl in Hl; [assumption|assumption|contradiction].
Qed.

Lemma tradedFor_report (x : string) (l : list Order) :
  tradedFor x (map unexecutedLine l) = 0.
Proof.
  unfold tradedFor. induction l as [|o l IH]; simpl; [reflexivity|].
  rewrite IH. reflexivity.
Qed.

(** When at most one order of [l] has the id [x], the record of [x] in the
    report of [l] carries all the shares of [x] in [l]. *)
Lemma unexecutedFor_report (x : string) (l : list Order) :
  (countFor id x l <= 1)%nat ->
  unexecutedFor x (map unexecutedLine l) = sumFor id quantity x l.
Proof.
  induction l as [|o l IH]; simpl; intros Hc; [reflexivity|].
  change (sumFor id quantity x (o :: l))
    with ((if String.eqb (id o) x then quantity o else 0) + sumFor id quantity x l).
  unfold countFor in Hc. simpl in Hc.
  destruct (String.eqb (id o) x) eqn:E.
  - simpl in Hc. rewrite countFor_zero_sumFor; [lia|].
    unfold countFor. lia.
  - rewrite IH; [lia|exact Hc].
Qed.

Lemma unexecutedTotal_app (x : string) (l1 l2 : list Line) :
  unexecutedTotal x (l1 ++ l2) = unexecutedTotal x l1 + unexecutedTotal x l2.
Proof.
  unfold unexecutedTotal. induction l1 as [|l l1 IH]; simpl; [reflexivity|].
  rewrite IH. lia.
Qed.

Lemma unexecutedTotal_trades (x : string) (output : list Line) :
  Forall isTradeLine output -> unexecutedTotal x output = 0.
Proof.
  unfold unexecutedTotal. induction 1 as [|l output Hl _ IH]; simpl; [reflexivity|].
  rewrite IH. destruct l; simpl in *; [reflexivity|reflexivity|contradiction].
Qed.

Lemma unexecutedTotal_report (x : string) (l : list Order) :
  unexecutedTotal x (map unexecutedLine l) = sumFor id quantity x l.
Proof.
  unfold unexecutedTotal, sumFor. induction l as [|o l IH]; simpl; [reflexivity|].
  now rewrite IH.
Qed.


Lemma parseLines_quantity_range (rt : Runtime) (lines : list string)
  (orders : list Order) :
  parseLines rt lines 0 = Some orders ->
  Forall (fun o => INT_MIN <= quantity o <= INT_MAX) orders.
Proof.
  intros E. rewrite Forall_forall. intros o Ho.
  destruct (parseLines_In _ _ _ _ E Ho) as (n & line & _ & _ & _ & _ & H).
  exact H.
Qed.

Lemma parsed_nonneg_range (rt : Runtime) (lines : list string)
  (orders : list Order) :
  parseLines rt lines 0 = Some orders ->
  Forall (fun o => 0 <= quantity o) orders ->
  Forall (fun o => 0 <= quantity o <= INT_MAX) orders.
Proof.
  intros E Hpos. pose proof (parseLines_quantity_range _ _ _ E) as Hr.
  rewrite Forall_forall in *. intros o Ho.
  specialize (Hpos o Ho). specialize (Hr o Ho). lia.
Qed.

(** C4 fails on the program: on [M1 S 2147483647 10] and [M2 B -1 20] the
    trade is for [-1] share, [quantity -= tradedQuantity] takes the quantity
    of [M1] past [INT_MAX], and [M1], submitted with a positive quantity, is
    reported with [-1] share sold and [-2147483648] unexecuted. *)
Lemma conservation_overflow_counterexample :
  parseLines sampleRuntime overflowLines 0
  = Some [ mkOrder "M1" "S" 2147483647 (Fin (10#1)) false 1;
           mkOrder "M2" "B" (-1) (Fin (20#1)) false 2 ] /\
  main sampleRuntime (Fin (100#1)) overflowLines
  = Some [ Purchased "M2" (-1) (Fin (10#1)); Sold "M1" (-1) (Fin (10#1));
           Unexecuted "M1" (-2147483648) ] /\
  ~ (forall out,
       main sampleRuntime (Fin (100#1)) overflowLines = Some out ->
       tradedFor "M1" out + unexecutedFor "M1" out = 2147483647).
Proof.
  split; [reflexivity|]. split; [reflexivity|].
  intros H. specialize (H _ eq_refl). vm_compute in H. discriminate.
Qed.

(** C4, as the program has it.  When [main] runs to its end on an input all
    of whose orders have a positive quantity and pairwise distinct ids, for
    every order: the sum of the traded quantities of the [Purchased] and
    [Sold] records of its id, plus the quantity of its [Unexecuted] record (0
    when it has none), is the quantity it was submitted with. *)
Theorem conservation (rt : Runtime) (initialPrice : double)
  (lines : list string) (orders : list Order) (o : Order) :
  parseLines rt lines 0 = Some orders ->
  Forall (fun o => 0 < quantity o) orders ->
  NoDup (map id orders) -> In o orders ->
  exists out,
    main rt initialPrice lines = Some out /\
    tradedFor (id o) out + unexecutedFor (id o) out = quantity o.
Proof.
  intros E Hpos Hnd Hin. eexists. split; [apply (main_parsed _ _ _ _ E)|].
  assert (Hr : Forall (fun o => 0 <= quantity o <= INT_MAX) orders).
  { apply (parsed_nonneg_range _ _ _ E). rewrite Forall_forall in *.
    intros o' Ho'. specialize (Hpos o' Ho'). lia. }
  destruct (run_conservation (id o) initialPrice orders Hr)
    as (_ & Hq & Hc & Hf).
  unfold writeUnexecutedOrders. simpl snd. simpl app.
  pose proof (report_Permutation (finalBook initialPrice orders)) as P.
  rewrite tradedFor_app, tradedFor_report, (unexecutedFor_after_trades _ _ _ Hf).
  rewrite unexecutedFor_report.
  - rewrite (sumFor_Permutation id quantity _ _ _ P).
    unfold submittedFor in Hq.
    rewrite (sumFor_NoDup id quantity o orders Hnd Hin) in Hq.
    unfold restingFor in Hq. lia.
  - rewrite (countFor_Permutation id _ _ _ P).
    pose proof (countFor_NoDup id (id o) orders Hnd) as H1. lia.
Qed.

Lemma conservation_witness :
  (parseLines sampleRuntime exampleLines 0 = Some exampleOrders /\
   Forall (fun o => 0 < quantity o) exampleOrders /\
   NoDup (map id exampleOrders) /\
   In (mkOrder "O1" "B" 10 (Fin (101#1)) false 1) exampleOrders) /\
  exists out,
    main sampleRuntime (Fin (100#1)) exampleLines = Some out /\
    tradedFor "O1" out + unexecutedFor "O1" out = 10.
Proof.
  assert (E : parseLines sampleRuntime exampleLines 0 = Some exampleOrders)
    by reflexivity.
  assert (Hpos : Forall (fun o => 0 < quantity o) exampleOrders)
    by (repeat (constructor; [simpl; lia|]); constructor).
  assert (Hnd : NoDup (map id exampleOrders)).
  { simpl. repeat constructor; simpl; intuition discriminate. }
  assert (Hin : In (mkOrder "O1" "B" 10 (Fin (101#1)) false 1) exampleOrders)
    by (left; reflexivity).
  split; [repeat split; assumption|].
  exact (conservation sampleRuntime (Fin (100#1)) exampleLines exampleOrders _
           E Hpos Hnd Hin).
Defined.

(** ** Conservation without the assumption on the ids *)

(** When [main] runs to its end on orders none of which has a negative
    quantity, then id by id the shares of the trade records and of the
    unexecuted records of the output add up to the shares submitted, whether
    or not ids are used more than once. *)
Theorem conservation_by_id (rt : Runtime) (initialPrice : double)
  (lines : list string) (orders : list Order) (x : string) :
  parseLines rt lines 0 = Some orders ->
  Forall (fun o => 0 <= quantity o) orders ->
  exists out,
    main rt initialPrice lines = Some out /\
    tradedFor x out + unexecutedTotal x out = submittedFor x orders.
Proof.
  intros E Hpos. eexists. split; [apply (main_parsed _ _ _ _ E)|].
  destruct (run_conservation x initialPrice orders
              (parsed_nonneg_range _ _ _ E Hpos)) as (_ & Hq & _ & Hf).
  unfold writeUnexecutedOrders. simpl snd. simpl app.
  rewrite tradedFor_app, tradedFor_report, unexecutedTotal_app.
  rewrite (unexecutedTotal_trades _ _ Hf), unexecutedTotal_report.
  rewrite (sumFor_Permutation id quantity x _ _
             (report_Permutation (finalBook initialPrice orders))).
  unfold restingFor in Hq. lia.
Qed.

Lemma conservation_by_id_witness :
  (parseLines sampleRuntime exampleLines 0 = Some exampleOrders /\
   Forall (fun o => 0 <= quantity o) exampleOrders) /\
  exists out,
    main sampleRuntime (Fin (100#1)) exampleLines = Some out /\
    tradedFor "O2" out + unexecutedTotal "O2" out = submittedFor "O2" exampleOrders.
Proof.
  assert (E : parseLines sampleRuntime exampleLines 0 = Some exampleOrders)
    by reflexivity.
  assert (Hpos : Forall (fun o => 0 <= quantity o) exampleOrders)
    by (repeat (constructor; [simpl; lia|]); constructor).
  split; [split; assumption|].
  exact (conservation_by_id sampleRuntime (Fin (100#1)) exampleLines
           exampleOrders "O2" E Hpos).
Defined.

(** ** Timestamps in a run of [main] *)

Lemma requeue_stamps (o : Order) (n : Z) (q : PriorityQueue) :
  exists dropped,
    Permutation (timestamp o :: map timestamp q)
      (dropped ++ map timestamp
         (if quantity o >? n
          then push (setQuantity o (wrapInt (quantity o - n))) q else q)).
Proof.
  destruct (quantity o >? n).
  - exists []. unfold push. rewrite map_app. simpl.
    apply Permutation_cons_append.
  - exists [timestamp o]. reflexivity.
Qed.

(** An iteration of the sweep brings no new timestamp into the book. *)
Lemma matchStep_stamps (st st' : OrderBook) (t : Trade) :
  matchStep st = Some (st', t) ->
  exists dropped, Permutation (stamps st) (dropped ++ stamps st').
Proof.
  intros H. apply matchStep_Some_inv in H
    as (buy & sell & Tb & Ts & _ & _ & ->).
  destruct (requeue_stamps buy (Z.min (quantity buy) (quantity sell))
              (pop (buyOrders st))) as [db Pb].
  destruct (requeue_stamps sell (Z.min (quantity buy) (quantity sell))
              (pop (sellOrders st))) as [ds Ps].
  exists (db ++ ds).
  unfold stamps, resting. simpl buyOrders. simpl sellOrders.
  rewrite !map_app.
  rewrite (Permutation_map timestamp (top_pop_Permutation _ _ Tb)).
  rewrite (Permutation_map timestamp (top_pop_Permutation _ _ Ts)).
  simpl map. rewrite Pb, Ps.
  rewrite <- !app_assoc. apply Permutation_app_head.
  rewrite !app_assoc. apply Permutation_app_tail.
  apply Permutation_app_comm.
Qed.

Lemma sweep_stamps (st st' : OrderBook) (ts : list Trade) :
  sweep st ts st' ->
  exists dropped, Permutation (stamps st) (dropped ++ stamps st').
Proof.
  induction 1 as [st E|st st1 st2 t ts E _ [d2 IH]].
  - exists []. reflexivity.
  - destruct (matchStep_stamps _ _ _ E) as [d1 P1].
    exists (d1 ++ d2). rewrite P1, IH. now rewrite app_assoc.
Qed.

(** The orders resting in the book of a run of [main] have pairwise
    distinct timestamps. *)
Lemma run_stamps (rt : Runtime) (initialPrice : double) (lines : list string)
  (orders : list Order) :
  parseLines rt lines 0 = Some orders ->
  NoDup (stamps (finalBook initialPrice orders)).
Proof.
  intros E.
  assert (H : NoDup (stamps (finalBook initialPrice orders)) /\
              Forall (fun t => t <= Z.of_nat (List.length orders))
                (stamps (finalBook initialPrice orders))); [|tauto].
  apply (run_invariant orders
           (fun n st _ => NoDup (stamps st) /\
                          Forall (fun t => t <= Z.of_nat n) (stamps st))).
  - intros n order st output Hn [Hnd Hle].
    pose proof (parseLines_timestamps _ _ _ _ _ E Hn) as Ht.
    assert (P0 : Permutation (stamps (addOrder order st))
                   (Z.of_nat (S n) :: stamps st)).
    { unfold stamps.
      rewrite (Permutation_map timestamp (addOrder_Permutation _ st)).
      simpl. now rewrite Ht. }
    rewrite P0. split.
    + constructor; [|assumption]. intros Hin.
      rewrite Forall_forall in Hle. specialize (Hle _ Hin). lia.
    + constructor; [lia|]. rewrite Forall_forall in *.
      intros t Hin. specialize (Hle t Hin). lia.
  - intros n st st' t output [Hnd Hle] Es.
    destruct (matchStep_stamps _ _ _ Es) as [dropped P].
    rewrite P in Hnd, Hle. split.
    + eapply NoDup_app_remove_l; eassumption.
    + now apply Forall_app in Hle.
  - split; constructor.
Qed.

Lemma NoDup_map_In_eq {A B : Type} (f : A -> B) (l : list A) (a b : A) :
  NoDup (map f l) -> In a l -> In b l -> f a = f b -> a = b.
Proof.
  induction l as [|x l IH]; simpl; intros Hnd Ha Hb E; [contradiction|].
  inversion Hnd as [|y ys Hnot Hnd']; subst.
  destruct Ha as [->|Ha], Hb as [->|Hb].
  - reflexivity.
  - exfalso. apply Hnot. rewrite E. now apply in_map.
  - exfalso. apply Hnot. rewrite <- E. now apply in_map.
  - now apply IH.
Qed.

(** In a one-sided queue without NaN and of pairwise distinct timestamps the greatest
    element is unique, so [top] returns what every implementation of the
    priority queue returns. *)
Lemma top_determined (q : PriorityQueue) (m : Order) :
  (allBuys q \/ allSells q) -> allPriced q -> NoDup (map timestamp q) ->
  In m q -> (forall o, In o q -> order_lt m o = false) ->
  top q = Some m.
Proof.
  intros Hside Hp Hnd Hm G.
  destruct (top q) as [t|] eqn:Tt;
    [|apply top_None in Tt; subst; contradiction].
  pose proof (top_In _ _ Tt) as Ht.
  destruct (greatest_unique q t m Hside Hp Ht Hm
              (top_greatest q t Hside Hp Tt) G) as [_ E].
  now rewrite (NoDup_map_In_eq timestamp q t m Hnd Ht Hm E).
Qed.


(** * Further properties of the engine *)

(** ** [Order::operator<] as an ordering *)

(** On orders of one side of the book [operator<] is irreflexive, asymmetric
    and transitive, and its incomparability is transitive through an order
    whose price is not NaN: where no price is NaN it is the strict weak
    ordering [std::priority_queue] and [std::sort] require. *)
Theorem order_lt_strict_weak (a b c : Order) :
  isBuy a = isBuy b -> isBuy b = isBuy c ->
  order_lt a a = false /\
  (order_lt a b = true -> order_lt b a = false) /\
  (order_lt a b = true -> order_lt b c = true -> order_lt a c = true) /\
  (isNaN (limitPrice b) = false ->
   order_lt a b = false -> order_lt b c = false -> order_lt a c = false).
Proof.
  intros Hab Hbc. split; [apply order_lt_irrefl|].
  split; [now apply order_lt_asym|].
  split; [now apply order_lt_trans|].
  intros Nb. now apply order_lt_negtrans.
Qed.

Lemma order_lt_strict_weak_witness :
  order_lt (mkOrder "O1" "S" 5 (Fin (50#1)) false 1) marketSell = true /\
  order_lt marketSell (mkOrder "O1" "S" 5 (Fin (50#1)) false 1) = false.
Proof.
  split; [reflexivity|].
  apply (order_lt_strict_weak (mkOrder "O1" "S" 5 (Fin (50#1)) false 1) marketSell
           marketSell eq_refl eq_refl).
  reflexivity.
Defined.

(** Through a NaN price incomparability is not transitive: of the buys at
    50, NaN and 60, the first is not below the second, nor the second below
    the third, and the first is below the third. *)
Lemma order_lt_nan_not_weak :
  order_lt (mkOrder "O1" "B" 1 (Fin (50#1)) false 1)
           (mkOrder "O2" "B" 1 NaN false 2) = false /\
  order_lt (mkOrder "O2" "B" 1 NaN false 2)
           (mkOrder "O3" "B" 1 (Fin (60#1)) false 3) = false /\
  order_lt (mkOrder "O1" "B" 1 (Fin (50#1)) false 1)
           (mkOrder "O3" "B" 1 (Fin (60#1)) false 3) = true.
Proof. repeat split. Qed.

(** ** What a sweep leaves and what it writes *)

(** After [matchOrders], when neither queue is empty, neither top is a market
    order and [bid.limitPrice >= ask.limitPrice] is false for the two tops;
    when neither of the two prices is NaN, the best bid is strictly below the
    best ask.  A market order is never left on top of its queue in front of
    an order of the other side. *)
Theorem matchOrders_leaves_no_cross (st : OrderBook) (output : list Line) :
  buyOrders (fst (matchOrders st output)) = [] \/
  sellOrders (fst (matchOrders st output)) = [] \/
  exists bid ask,
    top (buyOrders (fst (matchOrders st output))) = Some bid /\
    top (sellOrders (fst (matchOrders st output))) = Some ask /\
    isMarketOrder bid = false /\ isMarketOrder ask = false /\
    dge (limitPrice bid) (limitPrice ask) = false /\
    (isNaN (limitPrice bid) = false -> isNaN (limitPrice ask) = false ->
     dlt (limitPrice bid) (limitPrice ask) = true).
Proof. apply exit_no_cross, matchOrders_exits. Qed.

(** Sweeping a book that has just been swept changes nothing and writes
    nothing. *)
Theorem matchOrders_idempotent (st : OrderBook) (output output' : list Line) :
  matchOrders (fst (matchOrders st output)) output'
  = (fst (matchOrders st output), output').
Proof. apply matchLoop_at_exit, matchOrders_exits. Qed.

(** An order submitted while the other side of the book is empty rests:
    [submit] is [addOrder] and nothing is written. *)
Theorem submit_rests_on_empty_side (order : Order) (st : OrderBook)
  (output : list Line) :
  (if isBuy order then sellOrders st else buyOrders st) = [] ->
  submit order st output = (addOrder order st, output).
Proof.
  intros H. unfold submit. apply matchLoop_at_exit.
  unfold matchStep, addOrder.
  destruct (isBuy order); simpl; rewrite H; simpl.
  - now rewrite orb_true_r.
  - reflexivity.
Qed.

Lemma submit_rests_on_empty_side_witness :
  sellOrders bidOnlyBook = [] /\
  submit (mkOrder "O2" "B" 3 (Fin 0) true 2) bidOnlyBook []
  = (addOrder (mkOrder "O2" "B" 3 (Fin 0) true 2) bidOnlyBook, []).
Proof.
  split; [reflexivity|].
  apply (submit_rests_on_empty_side (mkOrder "O2" "B" 3 (Fin 0) true 2)
           bidOnlyBook []).
  reflexivity.
Defined.

Lemma sweep_bookSize (st st' : OrderBook) (ts : list Trade) :
  sweep st ts st' -> (bookSize st' + List.length ts <= bookSize st)%nat.
Proof.
  induction 1 as [st E|st st1 st2 t ts E _ IH]; simpl; [lia|].
  pose proof (matchStep_bookSize _ _ _ E). lia.
Qed.

(** Every trade of a sweep fills at least one order completely: the book
    loses at least as many orders as there are trades. *)
Theorem matchOrders_fills_an_order_per_trade (st : OrderBook) (output : list Line) :
  exists ts,
    snd (matchOrders st output) = output ++ flat_map tradeLines ts /\
    (bookSize (fst (matchOrders st output)) + List.length ts <= bookSize st)%nat.
Proof.
  destruct (matchOrders_sweep st output) as (ts & st' & Hs & _ & ->).
  exists ts. simpl. split; [reflexivity|]. now apply sweep_bookSize.
Qed.

Lemma matchStep_withinLimits (st st' : OrderBook) (t : Trade) :
  matchStep st = Some (st', t) -> withinLimits t.
Proof.
  intros H. apply matchStep_Some_inv in H
    as (buy & sell & _ & _ & Hc & -> & _).
  unfold withinLimits, determinePrice. simpl.
  apply canMatch_iff in Hc. unfold dge in Hc.
  split.
  - intros Hb. rewrite Hb in *. simpl.
    destruct (isMarketOrder sell) eqn:Hs; simpl; [now left|].
    destruct Hc as [Hc|[Hc|Hc]]; try discriminate.
    destruct (timestamp buy <? timestamp sell); [now left|now right].
  - intros Hs. rewrite Hs in *.
    destruct (isMarketOrder buy) eqn:Hb; simpl; [now left|].
    destruct Hc as [Hc|[Hc|Hc]]; try discriminate.
    destruct (timestamp buy <? timestamp sell); [now right|now left].
Qed.

(** In every trade of a sweep a limit buy pays at most its [limitPrice] and a
    limit sell receives at least its [limitPrice]: the execution price is
    that limit itself, or compares with it as [<=] and [>=] say. *)
Theorem matchOrders_trades_within_limits (st : OrderBook) (output : list Line) :
  exists ts st',
    sweep st ts st' /\
    matchOrders st output = (st', output ++ flat_map tradeLines ts) /\
    Forall withinLimits ts.
Proof.
  destruct (matchOrders_sweep st output) as (ts & st' & Hs & _ & E).
  exists ts, st'. split; [assumption|]. split; [assumption|].
  clear E. induction Hs as [st E|st st1 st2 t ts E _ IH]; constructor.
  - eapply matchStep_withinLimits; eassumption.
  - assumption.
Qed.

(** ** The output of a run *)

Lemma pairedTrades_app (l1 l2 : list Line) :
  pairedTrades l1 -> pairedTrades l2 -> pairedTrades (l1 ++ l2).
Proof.
  induction 1; simpl; [auto|]. intros H2. constructor. auto.
Qed.

(** The output of a run of [main] that reaches its end is a sequence of trade
    records, each [Purchased] record followed at once by the [Sold] record of
    the same trade with the same shares and price, and then the [Unexecuted]
    records of the orders resting in the final book. *)
Theorem main_output_shape (rt : Runtime) (initialPrice : double)
  (lines : list string) (orders : list Order) :
  parseLines rt lines 0 = Some orders ->
  exists l,
    main rt initialPrice lines
    = Some (tradeOutput initialPrice orders ++ map unexecutedLine l) /\
    pairedTrades (tradeOutput initialPrice orders) /\
    Permutation l (resting (finalBook initialPrice orders)).
Proof.
  intros E. eexists. split; [apply (main_parsed _ _ _ _ E)|].
  split; [|apply report_Permutation].
  apply (run_invariant orders (fun _ _ output => pairedTrades output)).
  - auto.
  - intros n st st' t output HP _. apply pairedTrades_app; [assumption|].
    repeat constructor.
  - constructor.
Qed.

Lemma main_output_shape_witness :
  parseLines sampleRuntime exampleLines 0 = Some exampleOrders /\
  exists l,
    main sampleRuntime (Fin (100#1)) exampleLines
    = Some (tradeOutput (Fin (100#1)) exampleOrders ++ map unexecutedLine l) /\
    pairedTrades (tradeOutput (Fin (100#1)) exampleOrders) /\
    Permutation l (resting (finalBook (Fin (100#1)) exampleOrders)).
Proof.
  split; [reflexivity|].
  exact (main_output_shape sampleRuntime (Fin (100#1)) exampleLines
           exampleOrders eq_refl).
Defined.

Lemma run_shares_in_range (bound : Z) (initialPrice : double) (orders : list Order) :
  bound <= INT_MAX ->
  Forall (fun o => 0 < quantity o <= bound) orders ->
  Forall (fun o => 0 < quantity o <= bound) (resting (finalBook initialPrice orders)) /\
  Forall (fun l => 0 < lineShares l <= bound) (tradeOutput initialPrice orders).
Proof.
  intros Hbound Horders.
  apply (run_invariant orders
           (fun _ st output =>
              Forall (fun o => 0 < quantity o <= bound) (resting st) /\
              Forall (fun l => 0 < lineShares l <= bound) output)).
  - intros n order st output Hn [Hq Ho]. split; [|assumption].
    rewrite (addOrder_Permutation _ st). constructor; [|assumption].
    rewrite Forall_forall in Horders. apply Horders.
    eapply nth_error_In; eassumption.
  - intros n st st' t output [Hq Ho] E.
    destruct (matchStep_quantities_in_range bound _ _ _ Hbound Hq E) as [Hq' Ht].
    split; [assumption|]. apply Forall_app. split; [assumption|].
    repeat constructor; simpl; lia.
  - split; constructor.
Qed.

(** The same for any bound: the quantities of parsed orders are at most
    [INT_MAX] anyway. *)
Lemma run_shares_in_range_parsed (rt : Runtime) (bound : Z)
  (initialPrice : double) (lines : list string) (orders : list Order) :
  parseLines rt lines 0 = Some orders ->
  Forall (fun o => 0 < quantity o <= bound) orders ->
  Forall (fun o => 0 < quantity o <= bound) (resting (finalBook initialPrice orders)) /\
  Forall (fun l => 0 < lineShares l <= bound) (tradeOutput initialPrice orders).
Proof.
  intros E Horders. pose proof (parseLines_quantity_range _ _ _ E) as Hr.
  destruct (run_shares_in_range (Z.min bound INT_MAX) initialPrice orders)
    as [Hq Ho].
  - lia.
  - rewrite Forall_forall in *. intros o Hin.
    specialize (Horders o Hin). specialize (Hr o Hin). lia.
  - split; rewrite Forall_forall in *.
    + intros o Hin. specialize (Hq o Hin). lia.
    + intros l Hin. specialize (Ho l Hin). lia.
Qed.

(** When every order of the input has a quantity between 1 and [bound], every
    record of the output of [main], trade or unexecuted, carries between 1
    and [bound] shares: no order of quantity 0 rests and no empty trade is
    written. *)
Theorem main_positive_shares (rt : Runtime) (bound : Z) (initialPrice : double)
  (lines : list string) (orders : list Order) :
  parseLines rt lines 0 = Some orders ->
  Forall (fun o => 0 < quantity o <= bound) orders ->
  exists out,
    main rt initialPrice lines = Some out /\
    Forall (fun l => 0 < lineShares l <= bound) out.
Proof.
  intros E Horders. eexists. split; [apply (main_parsed _ _ _ _ E)|].
  destruct (run_shares_in_range_parsed rt bound initialPrice lines orders
              E Horders) as [Hq Ho].
  unfold writeUnexecutedOrders. simpl snd. simpl app.
  apply Forall_app. split; [assumption|].
  rewrite <- (report_Permutation (finalBook initialPrice orders)) in Hq.
  rewrite Forall_forall in *. intros l Hl.
  apply in_map_iff in Hl as (o & <- & Ho'). simpl. now apply Hq.
Qed.

Lemma main_positive_shares_witness :
  (parseLines sampleRuntime exampleLines 0 = Some exampleOrders /\
   Forall (fun o => 0 < quantity o <= 10) exampleOrders) /\
  exists out,
    main sampleRuntime (Fin (100#1)) exampleLines = Some out /\
    Forall (fun l => 0 < lineShares l <= 10) out.
Proof.
  assert (H : Forall (fun o => 0 < quantity o <= 10) exampleOrders)
    by (repeat (constructor; [simpl; lia|]); constructor).
  split; [split; [reflexivity|exact H]|].
  exact (main_positive_shares sampleRuntime 10 (Fin (100#1)) exampleLines
           exampleOrders eq_refl H).
Defined.

(** The book of a run of [main] after its last line: buys and only buys in
    [buyOrders], and no two resting orders with the same timestamp. *)
Theorem finalBook_well_formed (rt : Runtime) (initialPrice : double)
  (lines : list string) (orders : list Order) :
  parseLines rt lines 0 = Some orders ->
  wellSided (finalBook initialPrice orders) /\
  NoDup (map timestamp (buyOrders (finalBook initialPrice orders))) /\
  NoDup (map timestamp (sellOrders (finalBook initialPrice orders))).
Proof.
  intros E. split.
  - apply wellSided_submitAll, wellSided_new.
  - pose proof (run_stamps rt initialPrice lines orders E) as Hnd.
    unfold stamps, resting in Hnd. rewrite map_app in Hnd. split.
    + eapply NoDup_app_remove_r; eassumption.
    + eapply NoDup_app_remove_l; eassumption.
Qed.

Lemma finalBook_well_formed_witness :
  parseLines sampleRuntime exampleLines 0 = Some exampleOrders /\
  wellSided (finalBook (Fin (100#1)) exampleOrders).
Proof.
  split; [reflexivity|].
  exact (proj1 (finalBook_well_formed sampleRuntime (Fin (100#1)) exampleLines
                  exampleOrders eq_refl)).
Defined.

(** The orders in the book after an iteration of the sweep were in the book
    before it, but for the quantity of those the iteration pushed back. *)
Lemma matchStep_resting_origin (st st' : OrderBook) (t : Trade) (o' : Order) :
  matchStep st = Some (st', t) -> In o' (resting st') ->
  exists o, In o (resting st) /\ (o' = o \/ exists q, o' = setQuantity o q).
Proof.
  intros H Ho'. apply matchStep_Some_inv in H
    as (buy & sell & Tb & Ts & _ & _ & ->).
  pose proof (top_pop_Permutation _ _ Tb) as Pb.
  pose proof (top_pop_Permutation _ _ Ts) as Ps.
  unfold resting in *. simpl in Ho'. apply in_app_or in Ho' as [Ho'|Ho'].
  - assert (Hcase : In o' (pop (buyOrders st)) \/ exists q, o' = setQuantity buy q).
    { destruct (quantity buy >? _); [|now left].
      unfold push in Ho'. apply in_app_or in Ho' as [Ho'|[<-|[]]]; eauto. }
    destruct Hcase as [Hin|[q ->]].
    + exists o'. split; [|now left]. apply in_or_app. left.
      apply (Permutation_in _ (Permutation_sym Pb)). now right.
    + exists buy. split; [|eauto]. apply in_or_app. left.
      apply (Permutation_in _ (Permutation_sym Pb)). now left.
  - assert (Hcase : In o' (pop (sellOrders st)) \/ exists q, o' = setQuantity sell q).
    { destruct (quantity sell >? _); [|now left].
      unfold push in Ho'. apply in_app_or in Ho' as [Ho'|[<-|[]]]; eauto. }
    destruct Hcase as [Hin|[q ->]].
    + exists o'. split; [|now left]. apply in_or_app. right.
      apply (Permutation_in _ (Permutation_sym Ps)). now right.
    + exists sell. split; [|eauto]. apply in_or_app. right.
      apply (Permutation_in _ (Permutation_sym Ps)). now left.
Qed.

Lemma matchStep_trade_orders (st st' : OrderBook) (t : Trade) :
  matchStep st = Some (st', t) ->
  In (tradeBuy t) (resting st) /\ In (tradeSell t) (resting st) /\
  executionPrice t = determinePrice st (tradeBuy t) (tradeSell t) /\
  lastTradedPrice st' = executionPrice t.
Proof.
  intros H. apply matchStep_Some_inv in H
    as (buy & sell & Tb & Ts & _ & -> & ->).
  simpl. unfold resting. repeat split; apply in_or_app.
  - left. now apply top_In.
  - right. now apply top_In.
Qed.

(** ** Where the execution prices come from *)

(** The price of every trade record of a run is a price of the input. *)
Lemma run_prices_from_input (initialPrice : double) (orders : list Order)
  (l : Line) (p : double) :
  In l (tradeOutput initialPrice orders) -> linePrice l = Some p ->
  inputPrice initialPrice orders p.
Proof.
  intros Hl Hp.
  set (K := inputPrice initialPrice orders).
  assert (H : K (lastTradedPrice (finalBook initialPrice orders)) /\
              Forall (fun o => isMarketOrder o = false -> K (limitPrice o))
                (resting (finalBook initialPrice orders)) /\
              Forall (fun l => forall p, linePrice l = Some p -> K p)
                (tradeOutput initialPrice orders)).
  { apply (run_invariant orders
             (fun _ st output =>
                K (lastTradedPrice st) /\
                Forall (fun o => isMarketOrder o = false -> K (limitPrice o))
                  (resting st) /\
                Forall (fun l => forall p, linePrice l = Some p -> K p) output)).
    - intros n order st output Hn (HK & Hr & Ho).
      split; [|split; [|assumption]].
      + unfold addOrder. now destruct (isBuy _).
      + rewrite (addOrder_Permutation _ st). constructor; [|assumption].
        intros M. right. exists order. split; [|auto].
        eapply nth_error_In; eassumption.
    - intros n st st' t output (HK & Hr & Ho) Es.
      destruct (matchStep_trade_orders _ _ _ Es) as (Hb & Hs & Hprice & Hlast).
      rewrite Forall_forall in Hr.
      assert (Kt : K (executionPrice t)).
      { rewrite Hprice. unfold determinePrice.
        destruct (isMarketOrder (tradeBuy t)) eqn:Mb,
                 (isMarketOrder (tradeSell t)) eqn:Ms; simpl.
        - assumption.
        - now apply Hr.
        - now apply Hr.
        - destruct (_ <? _); now apply Hr. }
      split; [now rewrite Hlast|]. split.
      + rewrite Forall_forall. intros o' Ho'.
        destruct (matchStep_resting_origin _ _ _ _ Es Ho')
          as (o & Hin & [->|[q ->]]); [now apply Hr|].
        simpl. now apply Hr.
      + apply Forall_app. split; [assumption|].
        unfold tradeLines.
        constructor; [simpl; intros q Hq; inversion Hq; subst; assumption|].
        constructor; [simpl; intros q Hq; inversion Hq; subst; assumption|].
        constructor.
    - split; [now left|]. split; constructor. }
  destruct H as (_ & _ & Ho). rewrite Forall_forall in Ho. eapply Ho; eassumption.
Qed.

(** Every trade record of a run of [main] is written with the execution
    price of its trade in two decimals, and that execution price is a price
    of the input: the initial price or the [limitPrice] of a limit order
    [parseOrder] made of a line.  The program computes no price of its own,
    and the price 0 it stores in market orders is never the source of an
    execution price. *)
Theorem main_prices_from_input (rt : Runtime) (initialPrice : double)
  (lines : list string) (orders : list Order) (out : list Line) (l : Line) :
  parseLines rt lines 0 = Some orders ->
  main rt initialPrice lines = Some out ->
  In l out -> isTradeLine l ->
  exists oid shares p,
    inputPrice initialPrice orders p /\
    ((l = Purchased oid shares p /\
      writeLine rt l
      = ("order " ++ oid ++ " " ++ showInt shares ++ " shares purchased at price "
         ++ showFixed2 rt p ++ newline)%string) \/
     (l = Sold oid shares p /\
      writeLine rt l
      = ("order " ++ oid ++ " " ++ showInt shares ++ " shares sold at price "
         ++ showFixed2 rt p ++ newline)%string)).
Proof.
  intros E Hm Hl Ht. rewrite (main_parsed _ _ _ _ E) in Hm.
  inversion Hm; subst out; clear Hm.
  unfold writeUnexecutedOrders in Hl. simpl snd in Hl. simpl app in Hl.
  apply in_app_or in Hl as [Hl|Hl];
    [|apply in_map_iff in Hl as (o & <- & _); contradiction].
  destruct l as [oid shares p|oid shares p|oid shares]; [| |contradiction];
    exists oid, shares, p;
    (split; [apply (run_prices_from_input _ _ _ _ Hl); reflexivity|]).
  - left. split; reflexivity.
  - right. split; reflexivity.
Qed.

Lemma main_prices_from_input_witness :
  (parseLines sampleRuntime exampleLines 0 = Some exampleOrders /\
   main sampleRuntime (Fin (100#1)) exampleLines
   = Some [ Purchased "O1" 5 (Fin (101#1)); Sold "O2" 5 (Fin (101#1));
            Unexecuted "O1" 5 ] /\
   writeLine sampleRuntime (Purchased "O1" 5 (Fin (101#1)))
   = ("order O1 5 shares purchased at price 101.00" ++ newline)%string) /\
  exists oid shares p,
    inputPrice (Fin (100#1)) exampleOrders p /\
    ((Purchased "O1" 5 (Fin (101#1)) = Purchased oid shares p /\
      writeLine sampleRuntime (Purchased "O1" 5 (Fin (101#1)))
      = ("order " ++ oid ++ " " ++ showInt shares ++ " shares purchased at price "
         ++ showFixed2 sampleRuntime p ++ newline)%string) \/
     (Purchased "O1" 5 (Fin (101#1)) = Sold oid shares p /\
      writeLine sampleRuntime (Purchased "O1" 5 (Fin (101#1)))
      = ("order " ++ oid ++ " " ++ showInt shares ++ " shares sold at price "
         ++ showFixed2 sampleRuntime p ++ newline)%string)).
Proof.
  split; [split; [|split]; reflexivity|].
  apply (main_prices_from_input sampleRuntime (Fin (100#1)) exampleLines
           exampleOrders _ (Purchased "O1" 5 (Fin (101#1))) eq_refl eq_refl);
    [left; reflexivity|exact I].
Defined.

(** ** Where the resting orders come from *)

Lemma setQuantity_same (o : Order) : setQuantity o (quantity o) = o.
Proof. now destruct o. Qed.

Lemma parsedFrom_setQuantity (orders : list Order) (o : Order) (q : Z) :
  parsedFrom orders o -> parsedFrom orders (setQuantity o q).
Proof.
  intros (H1 & parsed & Hn & E). split; [exact H1|].
  exists parsed. split; [exact Hn|]. simpl.
  rewrite <- E. reflexivity.
Qed.

Lemma finalBook_parsedFrom (rt : Runtime) (initialPrice : double)
  (lines : list string) (orders : list Order) :
  parseLines rt lines 0 = Some orders ->
  Forall (parsedFrom orders) (resting (finalBook initialPrice orders)).
Proof.
  intros E.
  apply (run_invariant orders
           (fun _ st _ => Forall (parsedFrom orders) (resting st))).
  - intros n order st output Hn Hr.
    rewrite (addOrder_Permutation _ st). constructor; [|assumption].
    pose proof (parseLines_timestamps _ _ _ _ _ E Hn) as Ht.
    split; [lia|]. exists order. split; [|apply setQuantity_same].
    rewrite Ht. replace (Z.to_nat (Z.of_nat (S n) - 1)) with n by lia. exact Hn.
  - intros n st st' t output Hr Es. rewrite Forall_forall in *.
    intros o' Ho'.
    destruct (matchStep_resting_origin _ _ _ _ Es Ho')
      as (o & Hin & [->|[q ->]]); [now apply Hr|].
    apply parsedFrom_setQuantity. now apply Hr.
  - constructor.
Qed.

(** Every order resting in the book when the input is read is the order
    [parseOrder] made of the line of its timestamp, with the id, the type,
    the price and the market flag [parseOrder] gave it: resting changes the
    quantity of an order and nothing else. *)
Theorem resting_orders_keep_their_line (rt : Runtime) (initialPrice : double)
  (lines : list string) (orders : list Order) (o : Order) :
  parseLines rt lines 0 = Some orders ->
  In o (resting (finalBook initialPrice orders)) ->
  1 <= timestamp o <= Z.of_nat (List.length lines) /\
  exists line parsed,
    nth_error lines (Z.to_nat (timestamp o - 1)) = Some line /\
    parseOrder rt line (timestamp o) = Some parsed /\
    id o = id parsed /\ type o = type parsed /\
    limitPrice o = limitPrice parsed /\
    isMarketOrder o = isMarketOrder parsed.
Proof.
  intros E Ho.
  pose proof (finalBook_parsedFrom rt initialPrice lines orders E) as H.
  rewrite Forall_forall in H. destruct (H o Ho) as (H1 & parsed & Hn & Eq).
  destruct (parseLines_nth _ _ _ _ E) as [Hlen Hnth].
  destruct (Hnth _ _ Hn) as (line & Hl & Hp).
  assert (Hlt : (Z.to_nat (timestamp o - 1) < List.length lines)%nat).
  { apply nth_error_Some. congruence. }
  split; [lia|].
  exists line, parsed. split; [exact Hl|]. split.
  - rewrite <- Hp. f_equal. lia.
  - rewrite <- Eq. simpl. auto.
Qed.

Lemma resting_orders_keep_their_line_witness :
  (parseLines sampleRuntime exampleLines 0 = Some exampleOrders /\
   In (mkOrder "O1" "B" 5 (Fin (101#1)) false 1)
      (resting (finalBook (Fin (100#1)) exampleOrders))) /\
  1 <= 1 <= Z.of_nat (List.length exampleLines).
Proof.
  assert (H : In (mkOrder "O1" "B" 5 (Fin (101#1)) false 1)
                (resting (finalBook (Fin (100#1)) exampleOrders)))
    by (left; reflexivity).
  split; [split; [reflexivity|exact H]|].
  exact (proj1 (resting_orders_keep_their_line sampleRuntime (Fin (100#1))
                  exampleLines exampleOrders _ eq_refl H)).
Defined.

(** ** The report follows the order of the input *)

Lemma sorted_NoDup_strict (l : list Order) :
  StronglySorted (fun a b => timestamp a <= timestamp b) l ->
  NoDup (map timestamp l) ->
  StronglySorted (fun a b => timestamp a < timestamp b) l.
Proof.
  induction 1 as [|x l Hs IH Hx]; simpl; intros Hnd; constructor.
  - apply IH. now inversion Hnd.
  - inversion Hnd as [|y ys Hnot _]; subst.
    rewrite Forall_forall in *. intros o Ho.
    specialize (Hx o Ho).
    assert (timestamp x <> timestamp o).
    { intros E. apply Hnot. rewrite E. now apply in_map. }
    lia.
Qed.

Lemma sorted_stamps_subseq (orders : list Order) :
  forall (base : Z) (l : list Order),
  StronglySorted (fun a b => timestamp a < timestamp b) l ->
  Forall (fun o => base < timestamp o /\
                   exists parsed,
                     nth_error orders (Z.to_nat (timestamp o - base - 1))
                     = Some parsed /\
                     id o = id parsed) l ->
  subseq (map id l) (map id orders).
Proof.
  induction orders as [|x rest IH]; intros base l Hs Hf.
  - destruct l as [|o l]; [constructor|].
    apply Forall_inv in Hf as (_ & parsed & Hn & _).
    now destruct (Z.to_nat (timestamp o - base - 1)).
  - destruct l as [|o l]; [constructor|].
    pose proof (Forall_inv Hf) as (Hbase & parsed & Hn & Hid).
    apply StronglySorted_inv in Hs as [Hs Ho].
    assert (Hshift : forall o', base + 1 < timestamp o' ->
              (exists parsed', nth_error (x :: rest)
                                 (Z.to_nat (timestamp o' - base - 1)) = Some parsed' /\
                               id o' = id parsed') ->
              exists parsed', nth_error rest
                                (Z.to_nat (timestamp o' - (base + 1) - 1))
                              = Some parsed' /\
                              id o' = id parsed').
    { intros o' Hlt (parsed' & Hn' & Hid').
      exists parsed'. split; [|assumption].
      replace (Z.to_nat (timestamp o' - base - 1))
        with (S (Z.to_nat (timestamp o' - (base + 1) - 1))) in Hn' by lia.
      exact Hn'. }
    assert (Htail : Forall (fun o' => base + 1 < timestamp o' /\
                       exists parsed',
                         nth_error rest (Z.to_nat (timestamp o' - (base + 1) - 1))
                         = Some parsed' /\ id o' = id parsed') l).
    { apply Forall_inv_tail in Hf. rewrite Forall_forall in *.
      intros o' Ho'. specialize (Ho o' Ho'). destruct (Hf o' Ho') as [Hb' He'].
      split; [lia|]. apply Hshift; [lia|assumption]. }
    destruct (Z.eq_dec (timestamp o) (base + 1)) as [E|NE].
    + replace (Z.to_nat (timestamp o - base - 1)) with O in Hn by lia.
      simpl in Hn. inversion Hn; subst parsed. simpl. rewrite Hid.
      apply subseq_take. now apply (IH (base + 1)).
    + simpl map at 2. apply subseq_skip.
      apply (IH (base + 1) (o :: l)); [now constructor|].
      constructor; [|assumption].
      split; [lia|]. apply Hshift; [lia|eauto].
Qed.

Lemma parsedFrom_id (orders : list Order) (o : Order) :
  parsedFrom orders o ->
  0 < timestamp o /\
  exists parsed, nth_error orders (Z.to_nat (timestamp o - 0 - 1)) = Some parsed /\
                 id o = id parsed.
Proof.
  intros (H1 & parsed & Hn & E). split; [lia|].
  exists parsed. rewrite Z.sub_0_r. split; [exact Hn|].
  rewrite <- E. reflexivity.
Qed.

(** The unexecuted records of [main] are in the order of the input: their ids
    are the ids of the orders of the input lines, in the same order, with the
    orders that were filled left out. *)
Theorem report_in_input_order (rt : Runtime) (initialPrice : double)
  (lines : list string) (orders : list Order) :
  parseLines rt lines 0 = Some orders ->
  exists l,
    main rt initialPrice lines
    = Some (tradeOutput initialPrice orders ++ map unexecutedLine l) /\
    Permutation l (resting (finalBook initialPrice orders)) /\
    StronglySorted (fun a b => timestamp a < timestamp b) l /\
    subseq (map id l) (map id orders).
Proof.
  intros E. set (st := finalBook initialPrice orders).
  exists (sortByTimestamp (drain (buyOrders st) ++ drain (sellOrders st))).
  pose proof (report_Permutation st) as P.
  assert (Hs : StronglySorted (fun a b => timestamp a < timestamp b)
                 (sortByTimestamp (drain (buyOrders st) ++ drain (sellOrders st)))).
  { apply sorted_NoDup_strict; [apply sortByTimestamp_sorted|].
    rewrite (Permutation_map timestamp P).
    exact (run_stamps rt initialPrice lines orders E). }
  split; [apply (main_parsed _ _ _ _ E)|]. split; [exact P|]. split; [exact Hs|].
  apply (sorted_stamps_subseq orders 0); [exact Hs|].
  pose proof (finalBook_parsedFrom rt initialPrice lines orders E) as Hr.
  fold st in Hr. rewrite <- P in Hr.
  rewrite Forall_forall in *. intros o Ho. apply parsedFrom_id. now apply Hr.
Qed.

Lemma report_in_input_order_witness :
  parseLines sampleRuntime exampleLines 0 = Some exampleOrders /\
  exists l,
    main sampleRuntime (Fin (100#1)) exampleLines
    = Some (tradeOutput (Fin (100#1)) exampleOrders ++ map unexecutedLine l) /\
    Permutation l (resting (finalBook (Fin (100#1)) exampleOrders)) /\
    StronglySorted (fun a b => timestamp a < timestamp b) l /\
    subseq (map id l) (map id exampleOrders).
Proof.
  split; [reflexivity|].
  exact (report_in_input_order sampleRuntime (Fin (100#1)) exampleLines
           exampleOrders eq_refl).
Defined.

(** ** The display of the book *)

Lemma insertOrder_Permutation (o : Order) (l : list Order) :
  Permutation (insertOrder o l) (o :: l).
Proof.
  induction l as [|x l IH]; simpl; [reflexivity|].
  destruct (order_lt o x); [reflexivity|].
  rewrite IH. apply perm_swap.
Qed.

Lemma sortOrders_Permutation (l : list Order) : Permutation (sortOrders l) l.
Proof.
  induction l as [|x l IH]; simpl; [constructor|].
  rewrite insertOrder_Permutation. now constructor.
Qed.

Lemma insertOrder_sorted (side : bool) (o : Order) (l : list Order) :
  isBuy o = side -> Forall (fun x => isBuy x = side) l -> allPriced l ->
  StronglySorted (fun a b => order_lt b a = false) l ->
  StronglySorted (fun a b => order_lt b a = false) (insertOrder o l).
Proof.
  intros Ho Hside Hp. induction 1 as [|x l Hs IH Hx]; simpl.
  - repeat constructor.
  - apply Forall_cons_iff in Hside as [Hxs Hl].
    apply Forall_cons_iff in Hp as [Nx Hp].
    destruct (order_lt o x) eqn:E.
    + constructor; [now constructor|].
      constructor; [apply order_lt_asym; [congruence|assumption]|].
      rewrite Forall_forall in *. intros y Hy.
      apply order_lt_negtrans with (b := x).
      * rewrite (Hl y Hy). congruence.
      * exact Nx.
      * now apply Hx.
      * apply order_lt_asym; [congruence|assumption].
    + constructor; [now apply IH|].
      rewrite Forall_forall in *. intros y Hy.
      apply (Permutation_in _ (insertOrder_Permutation o l)) in Hy.
      destruct Hy as [<-|Hy]; [assumption|now apply Hx].
Qed.

Lemma sortOrders_sorted (side : bool) (l : list Order) :
  Forall (fun x => isBuy x = side) l -> allPriced l ->
  StronglySorted (fun a b => order_lt b a = false) (sortOrders l).
Proof.
  intros Hside. induction Hside as [|x l Hx Hl IH]; intros Hp; simpl;
    [constructor|].
  apply Forall_cons_iff in Hp as [Nx Hp].
  apply (insertOrder_sorted side); [assumption| | |now apply IH].
  - now rewrite sortOrders_Permutation.
  - unfold allPriced. now rewrite sortOrders_Permutation.
Qed.

(** [displayPendingOrders] shows the last traded price and
    [max (#buys) (#sells)] rows.  The buy cells are the cells of the resting
    buys, each once, and the sell cells those of the resting sells; when no
    resting order has NaN for its price, both columns go up for [operator<],
    so that the best bid and the best ask are the last cells of their
    columns.  A market order shows no price. *)
Theorem displayPendingOrders_rows (st : OrderBook) :
  wellSided st -> allPriced (buyOrders st) -> allPriced (sellOrders st) ->
  fst (displayPendingOrders st) = lastTradedPrice st /\
  List.length (snd (displayPendingOrders st))
  = Nat.max (List.length (buyOrders st)) (List.length (sellOrders st)) /\
  exists bs ss,
    Permutation bs (buyOrders st) /\ Permutation ss (sellOrders st) /\
    StronglySorted (fun a b => order_lt b a = false) bs /\
    StronglySorted (fun a b => order_lt b a = false) ss /\
    (forall i, (i < Nat.max (List.length bs) (List.length ss))%nat ->
       nth_error (snd (displayPendingOrders st)) i
       = Some (option_map cellOf (nth_error bs i),
               option_map cellOf (nth_error ss i))) /\
    (forall o, isMarketOrder o = true -> cellPrice (cellOf o) = None).
Proof.
  intros [Hb Hs] Nb Ns. split; [reflexivity|].
  assert (Pb : Permutation (sortOrders (drain (buyOrders st))) (buyOrders st))
    by (rewrite sortOrders_Permutation; apply drain_Permutation).
  assert (Ps : Permutation (sortOrders (drain (sellOrders st))) (sellOrders st))
    by (rewrite sortOrders_Permutation; apply drain_Permutation).
  split.
  - unfold displayPendingOrders, displayOrders. simpl snd.
    rewrite length_map, length_seq.
    now rewrite (Permutation_length Pb), (Permutation_length Ps).
  - exists (sortOrders (drain (buyOrders st))), (sortOrders (drain (sellOrders st))).
    split; [exact Pb|]. split; [exact Ps|].
    split; [|split; [|split]].
    + apply (sortOrders_sorted true).
      * unfold allBuys in Hb. now rewrite drain_Permutation.
      * unfold allPriced in *. now rewrite drain_Permutation.
    + apply (sortOrders_sorted false).
      * unfold allSells in Hs. now rewrite drain_Permutation.
      * unfold allPriced in *. now rewrite drain_Permutation.
    + intros i Hi. unfold displayPendingOrders, displayOrders. simpl snd.
      rewrite nth_error_map, nth_error_seq.
      apply Nat.ltb_lt in Hi. rewrite Hi. reflexivity.
    + intros o Ho. unfold cellOf. simpl. now rewrite Ho.
Qed.

Lemma displayPendingOrders_rows_witness :
  (wellSided deepBook /\ allPriced (buyOrders deepBook) /\
   allPriced (sellOrders deepBook)) /\
  snd (displayPendingOrders deepBook)
  = [ (Some (mkCell "O1" (Some (Fin (97#1))) 10),
       Some (mkCell "O2" (Some (Fin (101#1))) 5));
      (Some (mkCell "O4" (Some (Fin (98#1))) 6),
       Some (mkCell "O5" (Some (Fin (99#1))) 7));
      (Some (mkCell "O3" (Some (Fin (98#1))) 4), None) ] /\
  List.length (snd (displayPendingOrders deepBook)) = 3%nat /\
  exists bs ss,
    Permutation bs (buyOrders deepBook) /\ Permutation ss (sellOrders deepBook) /\
    StronglySorted (fun a b => order_lt b a = false) bs /\
    StronglySorted (fun a b => order_lt b a = false) ss /\
    (forall i, (i < Nat.max (List.length bs) (List.length ss))%nat ->
       nth_error (snd (displayPendingOrders deepBook)) i
       = Some (option_map cellOf (nth_error bs i),
               option_map cellOf (nth_error ss i))) /\
    (forall o, isMarketOrder o = true -> cellPrice (cellOf o) = None).
Proof.
  assert (W : wellSided deepBook) by (split; repeat constructor).
  assert (Pb : allPriced (buyOrders deepBook)) by (repeat constructor).
  assert (Ps : allPriced (sellOrders deepBook)) by (repeat constructor).
  split; [split; [exact W|split; assumption]|].
  split; [reflexivity|].
  exact (proj2 (displayPendingOrders_rows deepBook W Pb Ps)).
Defined.

(** ** The name of the output file *)

Lemma startsWith_iff (pat s : list ascii) :
  startsWith pat s = true <-> exists r, s = pat ++ r.
Proof.
  revert s. induction pat as [|a pat IH]; intros s; simpl.
  - split; [eauto|reflexivity].
  - destruct s as [|b s]; [split; [discriminate|intros [r H]; discriminate]|].
    rewrite andb_true_iff, Ascii.eqb_eq, IH. split.
    + intros [-> [r ->]]. eauto.
    + intros [r H]. inversion H; subst. eauto.
Qed.

(** [find] returns the first occurrence. *)
Lemma find_Some (pat s : list ascii) (n : nat) :
  find pat s = Some n ->
  exists pre post,
    s = pre ++ pat ++ post /\ List.length pre = n /\
    forall a b, s = a ++ pat ++ b -> (n <= List.length a)%nat.
Proof.
  revert n. induction s as [|x s IH]; intros n; simpl.
  - destruct (startsWith pat []) eqn:E; [|discriminate].
    intros H; inversion H; subst. apply startsWith_iff in E as [r E].
    exists [], r. simpl. repeat split; [assumption|]. intros; lia.
  - destruct (startsWith pat (x :: s)) eqn:E.
    + intros H; inversion H; subst. apply startsWith_iff in E as [r E].
      exists [], r. simpl. repeat split; [assumption|]. intros; lia.
    + destruct (find pat s) as [m|] eqn:F; [|discriminate].
      intros H; inversion H; subst.
      destruct (IH m eq_refl) as (pre & post & -> & <- & Hfirst).
      exists (x :: pre), post. simpl. repeat split.
      intros a b Hab. destruct a as [|y a].
      * simpl in Hab.
        assert (startsWith pat (x :: pre ++ pat ++ post) = true)
          by (apply startsWith_iff; eauto).
        congruence.
      * simpl in Hab. inversion Hab; subst. simpl.
        apply le_n_S. eapply Hfirst. eassumption.
Qed.

Lemma find_None (pat s : list ascii) :
  find pat s = None -> forall a b, s <> a ++ pat ++ b.
Proof.
  induction s as [|x s IH]; simpl.
  - destruct (startsWith pat []) eqn:E; [discriminate|]. intros _ a b H.
    destruct a; simpl in H.
    + assert (startsWith pat [] = true) by (apply startsWith_iff; eauto).
      congruence.
    + discriminate.
  - destruct (startsWith pat (x :: s)) eqn:E; [discriminate|].
    destruct (find pat s) eqn:F; [discriminate|]. intros _ a b H.
    destruct a as [|y a]; simpl in H.
    + assert (startsWith pat (x :: s) = true) by (apply startsWith_iff; eauto).
      congruence.
    + inversion H; subst. eapply IH; eauto.
Qed.

Lemma find_last_of_None (c : ascii) (s : list ascii) :
  find_last_of c s = None -> ~ In c s.
Proof.
  induction s as [|x s IH]; simpl; [tauto|].
  destruct (find_last_of c s); [discriminate|].
  destruct (Ascii.eqb x c) eqn:E; [discriminate|].
  apply Ascii.eqb_neq in E. intros _ [H|H]; [contradiction|now apply IH].
Qed.

Lemma find_last_of_Some (c : ascii) (s : list ascii) (n : nat) :
  find_last_of c s = Some n ->
  exists stem ext, s = stem ++ c :: ext /\ List.length stem = n /\ ~ In c ext.
Proof.
  revert n. induction s as [|x s IH]; intros n; simpl; [discriminate|].
  destruct (find_last_of c s) as [m|] eqn:F.
  - intros H; inversion H; subst.
    destruct (IH m eq_refl) as (stem & ext & -> & <- & Hext).
    exists (x :: stem), ext. repeat split. assumption.
  - destruct (Ascii.eqb x c) eqn:E; [|discriminate].
    apply Ascii.eqb_eq in E. subst x.
    intros H; inversion H; subst.
    exists [], s. repeat split. now apply find_last_of_None.
Qed.

Lemma find_last_of_app (c : ascii) (stem ext : list ascii) :
  ~ In c ext -> find_last_of c (stem ++ c :: ext) = Some (List.length stem).
Proof.
  intros Hext. induction stem as [|x stem IH]; simpl.
  - destruct (find_last_of c ext) as [m|] eqn:F.
    + destruct (find_last_of_Some _ _ _ F) as (a & b & -> & _ & _).
      exfalso. apply Hext. apply in_or_app. right. now left.
    + now rewrite Ascii.eqb_refl.
  - now rewrite IH.
Qed.

Lemma app_eq_length_inv {A : Type} (a a' b b' : list A) :
  List.length a = List.length a' -> a ++ b = a' ++ b' -> a = a' /\ b = b'.
Proof.
  revert a'. induction a as [|x a IH]; intros [|x' a'] Hlen H;
    simpl in *; try discriminate; [auto|].
  inversion H; subst. destruct (IH a') as [-> ->]; auto.
Qed.

Lemma replace_at (pre pat str post : list ascii) :
  replace (List.length pre) (List.length pat) str (pre ++ pat ++ post)
  = pre ++ str ++ post.
Proof.
  unfold replace.
  rewrite firstn_app, firstn_all, Nat.sub_diag. simpl. rewrite app_nil_r.
  rewrite skipn_app.
  rewrite (skipn_all2 pre) by lia. simpl.
  replace (List.length pre + List.length pat - List.length pre)%nat
    with (List.length pat) by lia.
  rewrite skipn_app, skipn_all, Nat.sub_diag. reflexivity.
Qed.

(** A name that contains ["input"] has its first ["input"] replaced by
    ["output"], wherever in the path it stands, and nothing else changed: the
    output file is one character longer and never the input file. *)
Theorem outputFilename_replaces_first_input (name : list ascii) :
  (exists a b, name = a ++ chars "input" ++ b) ->
  exists pre post,
    name = pre ++ chars "input" ++ post /\
    (forall a b, name = a ++ chars "input" ++ b ->
                 (List.length pre <= List.length a)%nat) /\
    outputFilenameOf name = pre ++ chars "output" ++ post /\
    outputFilenameOf name <> name.
Proof.
  intros (a & b & Hab). unfold outputFilenameOf.
  destruct (find (chars "input") name) as [n|] eqn:F;
    [|exfalso; eapply find_None; eassumption].
  destruct (find_Some _ _ _ F) as (pre & post & -> & <- & Hfirst).
  exists pre, post. split; [reflexivity|]. split; [exact Hfirst|].
  assert (E : replace (List.length pre) 5 (chars "output")
                (pre ++ chars "input" ++ post)
              = pre ++ chars "output" ++ post)
    by (apply (replace_at pre (chars "input"))).
  rewrite E. split; [reflexivity|].
  intros H. apply (f_equal (@List.length ascii)) in H.
  rewrite !length_app in H. simpl in H. lia.
Qed.

Lemma outputFilename_replaces_first_input_witness :
  (exists a b, chars "inputs/input1.txt" = a ++ chars "input" ++ b) /\
  outputFilenameOf (chars "inputs/input1.txt") <> chars "inputs/input1.txt".
Proof.
  assert (H : exists a b, chars "inputs/input1.txt" = a ++ chars "input" ++ b)
    by (exists [], (chars "s/input1.txt"); reflexivity).
  split; [exact H|].
  destruct (outputFilename_replaces_first_input _ H) as (pre & post & _ & _ & _ & N).
  exact N.
Defined.

(** A name without ["input"] keeps what precedes its last dot, or all of it
    when it has no dot, and gets the extension [".out"].  The output file is
    then the input file itself exactly when the name ends in [".out"]. *)
Theorem outputFilename_without_input (name : list ascii) :
  (forall a b, name <> a ++ chars "input" ++ b) ->
  (exists stem,
     outputFilenameOf name = stem ++ chars ".out" /\
     ((stem = name /\ ~ In "."%char name) \/
      exists ext, name = stem ++ "."%char :: ext /\ ~ In "."%char ext)) /\
  (outputFilenameOf name = name <-> exists stem, name = stem ++ chars ".out").
Proof.
  intros Hno. unfold outputFilenameOf.
  destruct (find (chars "input") name) as [n|] eqn:F.
  { destruct (find_Some _ _ _ F) as (pre & post & E & _). exfalso.
    eapply Hno. eassumption. }
  destruct (find_last_of "."%char name) as [n|] eqn:L; simpl substr0.
  - destruct (find_last_of_Some _ _ _ L) as (stem & ext & -> & <- & Hext).
    rewrite firstn_app, firstn_all, Nat.sub_diag. simpl firstn.
    rewrite app_nil_r. split.
    + exists stem. split; [reflexivity|]. right. eauto.
    + split.
      * intros H. apply app_inv_head in H. exists stem.
        simpl in H. now rewrite <- H.
      * intros [stem' H].
        assert (L' : find_last_of "."%char (stem' ++ chars ".out")
                     = Some (List.length stem')).
        { apply (find_last_of_app "."%char stem' (chars "out")).
          simpl. intros [H'|[H'|[H'|[]]]]; discriminate. }
        rewrite <- H, (find_last_of_app _ stem ext Hext) in L'.
        inversion L' as [Hlen].
        destruct (app_eq_length_inv _ _ _ _ Hlen H) as [_ E].
        now rewrite E.
  - pose proof (find_last_of_None _ _ L) as Hdot. split.
    + exists name. split; [reflexivity|]. now left.
    + split.
      * intros H. apply (f_equal (@List.length ascii)) in H.
        rewrite length_app in H. simpl in H. lia.
      * intros [stem ->]. exfalso. apply Hdot.
        apply in_or_app. right. now left.
Qed.

Lemma outputFilename_without_input_witness :
  (forall a b, chars "orders.out" <> a ++ chars "input" ++ b) /\
  outputFilenameOf (chars "orders.out") = chars "orders.out".
Proof.
  assert (H : forall a b, chars "orders.out" <> a ++ chars "input" ++ b)
    by (apply find_None; reflexivity).
  split; [exact H|].
  apply (outputFilename_without_input _ H).
  exists (chars "orders"). reflexivity.
Defined.

(** ** No order is filled beyond its quantity *)

Lemma tradedFor_nonneg (x : string) (output : list Line) :
  Forall (fun l => 0 < lineShares l) output -> 0 <= tradedFor x output.
Proof.
  unfold tradedFor. induction 1 as [|l output Hl _ IH]; simpl; [lia|].
  destruct l; simpl in *; try destruct (String.eqb oid x); lia.
Qed.

Lemma sumFor_quantity_nonneg (x : string) (l : list Order) :
  Forall (fun o => 0 < quantity o) l -> 0 <= sumFor id quantity x l.
Proof.
  unfold sumFor. induction 1 as [|o l Ho _ IH]; simpl; [lia|].
  destruct (String.eqb (id o) x); lia.
Qed.

(** With positive quantities in the input, the shares traded under an id and
    the shares reported unexecuted under it are each between 0 and the shares
    submitted under it: no order is filled for more than it asked, and none
    is reported with more than it came with. *)
Theorem no_overfill (rt : Runtime) (initialPrice : double)
  (lines : list string) (orders : list Order) (x : string) :
  parseLines rt lines 0 = Some orders ->
  Forall (fun o => 0 < quantity o) orders ->
  exists out,
    main rt initialPrice lines = Some out /\
    0 <= tradedFor x out <= submittedFor x orders /\
    0 <= unexecutedTotal x out <= submittedFor x orders.
Proof.
  intros E Hpos. eexists. split; [apply (main_parsed _ _ _ _ E)|].
  assert (Hb : Forall (fun o => 0 < quantity o <= INT_MAX) orders).
  { pose proof (parseLines_quantity_range _ _ _ E) as Hr.
    rewrite Forall_forall in *. intros o Ho.
    specialize (Hpos o Ho). specialize (Hr o Ho). lia. }
  destruct (run_shares_in_range INT_MAX initialPrice orders (Z.le_refl _) Hb)
    as [Hq Ho].
  assert (Hr : Forall (fun o => 0 <= quantity o <= INT_MAX) orders).
  { rewrite Forall_forall in *. intros o Hin. specialize (Hb o Hin). lia. }
  destruct (run_conservation x initialPrice orders Hr) as (_ & Hc & _ & Hf).
  assert (Ht : 0 <= tradedFor x (tradeOutput initialPrice orders)).
  { apply tradedFor_nonneg. rewrite Forall_forall in *.
    intros l Hl. specialize (Ho l Hl). lia. }
  assert (Hrest : 0 <= restingFor x (finalBook initialPrice orders)).
  { apply sumFor_quantity_nonneg. rewrite Forall_forall in *.
    intros o Hin. specialize (Hq o Hin). lia. }
  unfold writeUnexecutedOrders. simpl snd. simpl app.
  rewrite tradedFor_app, tradedFor_report, unexecutedTotal_app.
  rewrite unexecutedTotal_report.
  rewrite (sumFor_Permutation id quantity x _ _
             (report_Permutation (finalBook initialPrice orders))).
  rewrite (unexecutedTotal_trades _ _ Hf).
  unfold restingFor in *. lia.
Qed.

Lemma no_overfill_witness :
  (parseLines sampleRuntime exampleLines 0 = Some exampleOrders /\
   Forall (fun o => 0 < quantity o) exampleOrders) /\
  exists out,
    main sampleRuntime (Fin (100#1)) exampleLines = Some out /\
    0 <= tradedFor "O1" out <= submittedFor "O1" exampleOrders /\
    0 <= unexecutedTotal "O1" out <= submittedFor "O1" exampleOrders.
Proof.
  assert (H : Forall (fun o => 0 < quantity o) exampleOrders)
    by (repeat (constructor; [simpl; lia|]); constructor).
  split; [split; [reflexivity|exact H]|].
  exact (no_overfill sampleRuntime (Fin (100#1)) exampleLines exampleOrders
           "O1" eq_refl H).
Defined.

(** ** What [parseOrder] makes of a line *)

Lemma skipSpaces_blank (w s : list ascii) :
  blank w -> skipSpaces (w ++ s) = skipSpaces s.
Proof.
  unfold blank. induction w as [|c w IH]; simpl; [reflexivity|].
  intros H. apply andb_true_iff in H as [Hc Hw]. rewrite Hc. now apply IH.
Qed.

Lemma span_prefix (p : ascii -> bool) (tok rest : list ascii) :
  forallb p tok = true ->
  match rest with [] => True | c :: _ => p c = false end ->
  span p (tok ++ rest) = (tok, rest).
Proof.
  intros Ht Hr. induction tok as [|c tok IH]; simpl.
  - destruct rest as [|c rest]; [reflexivity|]. simpl. now rewrite Hr.
  - simpl in Ht. apply andb_true_iff in Ht as [Hc Ht]. rewrite Hc.
    now rewrite (IH Ht).
Qed.

Lemma sentry_word (w : list ascii) (c : ascii) (s : list ascii) :
  blank w -> isSpace c = false ->
  sentry (mkStream (w ++ c :: s) false false) = (true, mkStream (c :: s) false false).
Proof.
  intros Hw Hc. unfold sentry. simpl.
  rewrite (skipSpaces_blank _ _ Hw). simpl. now rewrite Hc.
Qed.

Lemma sentry_failed (s : istringstream) :
  failbit s = true -> sentry s = (false, mkStream (buffer s) (eofbit s) true).
Proof.
  intros H. unfold sentry, good. rewrite H. now rewrite andb_false_r.
Qed.


Lemma tokenEnd_span (rest : list ascii) :
  tokenEnd rest ->
  match rest with [] => True | c :: _ => negb (isSpace c) = false end.
Proof. destruct rest as [|c rest]; simpl; [auto|]. now intros ->. Qed.

Lemma extractString_word (old : string) (w tok rest : list ascii) :
  blank w -> word tok -> tokenEnd rest ->
  extractString old (mkStream (w ++ tok ++ rest) false false)
  = (string_of_list_ascii tok, mkStream rest (atEnd rest) false).
Proof.
  intros Hw [Hne Ht] Hr. destruct tok as [|c tok]; [contradiction|].
  pose proof Ht as Ht'. simpl in Ht'. apply andb_true_iff in Ht' as [Hc _].
  apply negb_true_iff in Hc.
  unfold extractString. simpl app. rewrite (sentry_word _ _ _ Hw Hc).
  cbv iota beta. unfold buffer.
  change (c :: tok ++ rest) with ((c :: tok) ++ rest).
  now rewrite (span_prefix _ _ _ Ht (tokenEnd_span _ Hr)).
Qed.

Lemma extractString_failed (old : string) (s : istringstream) :
  failbit s = true ->
  fst (extractString old s) = old /\ failbit (snd (extractString old s)) = true.
Proof.
  intros H. unfold extractString. rewrite (sentry_failed _ H). split; reflexivity.
Qed.


Lemma extractChar_char (old : ascii) (w : list ascii) (c : ascii) (rest : list ascii) :
  blank w -> isSpace c = false ->
  extractChar old (mkStream (w ++ c :: rest) false false)
  = (c, mkStream rest false false).
Proof.
  intros Hw Hc. unfold extractChar. now rewrite (sentry_word _ _ _ Hw Hc).
Qed.







(** Where a numeral is expected and the next characters are neither a sign
    nor a digit, 0 is stored and [failbit] is set. *)
Lemma extractInt_no_digit (old : Z) (w : list ascii) (c : ascii)
  (rest : list ascii) :
  blank w -> isSpace c = false -> isDigit c = false ->
  Ascii.eqb c "-" = false -> Ascii.eqb c "+" = false ->
  fst (extractInt old (mkStream (w ++ c :: rest) false false)) = 0 /\
  failbit (snd (extractInt old (mkStream (w ++ c :: rest) false false))) = true.
Proof.
  intros Hw Hs Hd Hm Hp. unfold extractInt.
  rewrite (sentry_word _ _ _ Hw Hs). cbv iota beta. unfold buffer.
  rewrite Hm, Hp. simpl span. rewrite Hd. split; reflexivity.
Qed.


Lemma blank_tokenEnd (w rest : list ascii) :
  blank w -> w <> [] -> tokenEnd (w ++ rest).
Proof.
  intros Hw Hne. destruct w as [|c w]; [contradiction|]. simpl.
  unfold blank in Hw. simpl in Hw. now apply andb_true_iff in Hw as [Hc _].
Qed.

Lemma atEnd_app (w rest : list ascii) : w <> [] -> atEnd (w ++ rest) = false.
Proof. now destruct w. Qed.

Lemma parse_string (l : list ascii) :
  list_ascii_of_string (string_of_list_ascii l) = l.
Proof. apply list_ascii_of_string_of_list_ascii. Qed.






(** When what follows the type on the line starts with a character that is
    no digit and no sign, the quantity cannot be read: the order is a market
    order of quantity 0 and price 0 whatever follows on the line, a price
    included, and [std::stod] is not called. *)
Theorem parseOrder_unreadable_quantity (rt : Runtime) (ts : Z)
  (w0 oid w1 : list ascii) (c : ascii) (w2 : list ascii) (x : ascii)
  (rest : list ascii) :
  blank w0 -> word oid -> blank w1 -> w1 <> [] -> isSpace c = false ->
  blank w2 -> isSpace x = false -> isDigit x = false ->
  x <> "-"%char -> x <> "+"%char ->
  parseOrder rt (string_of_list_ascii (w0 ++ oid ++ w1 ++ c :: w2 ++ x :: rest)) ts
  = Some (mkOrder (string_of_list_ascii oid) c 0 (Fin 0) true ts).
Proof.
  intros H0 Hid H1 N1 Hc H2 Hx Hd Hm Hp.
  apply Ascii.eqb_neq in Hm, Hp.
  unfold parseOrder. rewrite parse_string.
  rewrite (extractString_word _ _ _ _ H0 Hid (blank_tokenEnd _ _ H1 N1)).
  rewrite (atEnd_app w1 _ N1), (extractChar_char _ _ _ _ H1 Hc).
  destruct (extractInt_no_digit (wrapInt (indeterminateQuantity rt ts))
              w2 x rest H2 Hx Hd Hm Hp) as [Hq Hf].
  destruct (extractInt _ _) as [n s3]. simpl in Hq, Hf. subst n.
  destruct (extractString_failed EmptyString s3 Hf) as [_ Hf'].
  destruct (extractString _ s3) as [tok s4]. simpl in Hf'. rewrite Hf'.
  reflexivity.
Qed.

Lemma parseOrder_unreadable_quantity_witness :
  (blank [] /\ word (chars "O1") /\ blank (chars " ") /\ chars " " <> [] /\
   isSpace "B" = false /\ isSpace "t" = false /\ isDigit "t" = false /\
   "t"%char <> "-"%char /\ "t"%char <> "+"%char) /\
  parseOrder sampleRuntime "O1 B ten 50" 1
  = Some (mkOrder "O1" "B" 0 (Fin 0) true 1).
Proof.
  assert (B0 : blank []) by reflexivity.
  assert (B1 : blank (chars " ")) by reflexivity.
  assert (N1 : chars " " <> []) by discriminate.
  assert (Hc : isSpace "B" = false) by reflexivity.
  assert (Wid : word (chars "O1")) by (split; [discriminate|reflexivity]).
  assert (Hx : isSpace "t" = false) by reflexivity.
  assert (Hd : isDigit "t" = false) by reflexivity.
  assert (Hm : "t"%char <> "-"%char) by discriminate.
  assert (Hp : "t"%char <> "+"%char) by discriminate.
  split;
    [exact (conj B0 (conj Wid (conj B1 (conj N1 (conj Hc (conj Hx
              (conj Hd (conj Hm Hp))))))))|].
  exact (parseOrder_unreadable_quantity sampleRuntime 1 [] (chars "O1")
           (chars " ") "B" (chars " ") "t" (chars "en 50")
           B0 Wid B1 N1 Hc B1 Hx Hd Hm Hp).
Defined.


